(** * nucypher/characters/lawful.py: Alice, Bob and Ursula

    A shallow embedding of the character classes of
    [nucypher/characters/lawful.py] and the properties of them that the
    specification states.

    Conventions of the embedding.
    - A Python call that may raise is a function into [result]: [Ok v] for a
      returned value, [Raise e] for a raised exception.
    - [bytes] are lists of [byte]; Python [int]s are [Z]; [str]s are [string].
    - [None] defaults of keyword arguments are [option]s, and Python's
      truth-value test ([if x:], [if not x:]) is written out per type.
    - A [dict] is a [gmap]; an [OrderedDict] and anything whose iteration
      order the code relies on is an association list.
    - Collaborators that live in other modules of the package or in other
      packages (the network middleware, the learning loop of [Learner], the
      Umbral primitives, [bytestring_splitter]) are the fields of type
      classes, so that every statement holds for any behaviour they have. *)

From Stdlib Require Import ZArith List String Ascii Strings.Byte Permutation Lia.
From stdpp Require Import base option gmap strings list fin_maps pretty.

Open Scope Z_scope.

(* ===================================================================== *)
(** * Part I. Definitions                                                 *)
(* ===================================================================== *)

(** ** Python values *)

Module Py.

Definition bytes := list byte.

#[global] Instance byte_eq_dec : EqDecision byte := Byte.byte_eq_dec.

#[global] Instance byte_countable : Countable byte :=
  inj_countable Byte.to_N Byte.of_N Byte.of_to_N.

(** [Ok v]: the call returned [v]; [Raise e]: it raised [e]. *)
Inductive result (E A : Type) : Type :=
| Ok (v : A)
| Raise (e : E).
Arguments Ok {E A} v.
Arguments Raise {E A} e.

Definition bind {E A B} (c : result E A) (k : A -> result E B) : result E B :=
  match c with
  | Ok v => k v
  | Raise e => Raise e
  end.

Definition is_ok {E A} (c : result E A) : bool :=
  match c with Ok _ => true | Raise _ => false end.

(** Truth value of a [str]: the empty string is false. *)
Definition str_truthy (s : string) : bool :=
  match s with EmptyString => false | String _ _ => true end.

(** Truth value of an argument that defaults to [None]. *)
Definition opt_truthy {A} (truthy : A -> bool) (o : option A) : bool :=
  match o with None => false | Some a => truthy a end.

(** [int.from_bytes(b, byteorder="big")]. *)
Definition int_from_bytes_big (b : bytes) : Z :=
  fold_left (fun acc x => 256 * acc + Z.of_N (Byte.to_N x)) b 0.

(** [bytes.hex()]: two lower-case hexadecimal digits per byte. *)
Definition hex_digit (n : N) : ascii :=
  match n with
  | 0 => "0" | 1 => "1" | 2 => "2" | 3 => "3" | 4 => "4" | 5 => "5"
  | 6 => "6" | 7 => "7" | 8 => "8" | 9 => "9" | 10 => "a" | 11 => "b"
  | 12 => "c" | 13 => "d" | 14 => "e" | _ => "f"
  end%N%char.

Definition hex_of_byte (b : byte) : string :=
  let n := Byte.to_N b in
  String (hex_digit (n / 16)) (String (hex_digit (n mod 16)) EmptyString).

Fixpoint hex (b : bytes) : string :=
  match b with
  | [] => EmptyString
  | x :: rest => (hex_of_byte x ++ hex rest)%string
  end.

(** The inverse of [hex_digit], used to show that [hex] loses nothing. *)
Definition unhex_digit (c : ascii) : option N :=
  let n := N_of_ascii c in
  if ((48 <=? n) && (n <=? 57))%N then Some (n - 48)%N
  else if ((97 <=? n) && (n <=? 102))%N then Some (n - 87)%N
  else None.

Fixpoint unhex (s : string) : option bytes :=
  match s with
  | EmptyString => Some []
  | String hi (String lo rest) =>
      match unhex_digit hi, unhex_digit lo, unhex rest with
      | Some h, Some l, Some bs =>
          match Byte.of_N (16 * h + l) with
          | Some x => Some (x :: bs)
          | None => None
          end
      | _, _, _ => None
      end
  | String _ EmptyString => None
  end.

End Py.
Export Py.

(** [x ← c; k] runs [c] and, unless it raised, continues with [k]. *)
#[global] Instance result_ret {E} : MRet (result E) := fun _ v => Ok v.
#[global] Instance result_bind {E} : MBind (result E) :=
  fun _ _ k c => Py.bind c k.

(** ** The data model

    The classes below are declared in [nucypher.policy.models], [umbral] and
    [nucypher.network]; the records keep the attributes that [lawful.py]
    reads and writes. *)

(** A ciphertext fragment, as the bytes a proxy returned. *)
Definition CFrag := bytes.

(** An Umbral capsule.  Equality and hashing of a capsule go by its
    components; [_attached_cfrags] is the accumulator that [attach_cfrag]
    appends to. *)
Record Capsule := mkCapsule {
  components : bytes;
  _attached_cfrags : list CFrag;
}.

(** A node as the characters know it: the keyword arguments that
    [Ursula.from_bytes] hands to [from_public_keys]. *)
Record Ursula := mkUrsula {
  checksum_public_address : string;
  verifying_key : bytes;
  encrypting_key : bytes;
  domains : gset bytes;
  timestamp : Z;
  interface_signature : bytes;
  identity_evidence : bytes;
  certificate : bytes;
  rest_host : string;
  rest_port : Z;
  federated_only : bool;
}.

#[global] Instance Ursula_eq_dec : EqDecision Ursula.
Proof. solve_decision. Defined.

#[global] Instance Ursula_countable : Countable Ursula :=
  inj_countable'
    (fun u => (checksum_public_address u, verifying_key u, encrypting_key u,
               domains u, timestamp u, interface_signature u,
               identity_evidence u, certificate u, rest_host u, rest_port u,
               federated_only u))
    (fun '(a, vk, ek, d, ts, s, ie, c, h, p, f) =>
       mkUrsula a vk ek d ts s ie c h p f)
    (fun u => match u with mkUrsula _ _ _ _ _ _ _ _ _ _ _ => eq_refl end).

(** [TreasureMap]: the threshold and the destinations
    [{node_id: arrangement_id}], in the order iteration yields them. *)
Record TreasureMap := mkTreasureMap {
  m : Z;
  destinations : list (string * bytes);
}.

(** [WorkOrder.construct_by_bob(arrangement_id, capsules, ursula, bob)];
    [tasks] has one task per capsule. *)
Record WorkOrder := mkWorkOrder {
  arrangement_id : bytes;
  capsules : list Capsule;
  ursula : Ursula;
  bob_stamp : bytes;
}.

(** [IndisputableEvidence(capsule, cfrag, ursula)]. *)
Record IndisputableEvidence := mkEvidence {
  evidence_capsule : Capsule;
  evidence_cfrag : CFrag;
  evidence_ursula : Ursula;
}.

(** [UmbralMessageKit] and the data source (Enrico) that made it. *)
Record MessageKit := mkMessageKit {
  capsule : Capsule;
  ciphertext : bytes;
}.

Record DataSource := mkDataSource {
  policy_pubkey : bytes;
  source_stamp : bytes;
}.

(** What Alice pays for a policy: an amount, or the constant
    [NON_PAYMENT]. *)
Inductive payment : Type :=
| Amount (v : Z)
| NON_PAYMENT.

(** The arguments of the two policy constructors that [create_policy]
    calls. *)
Record PolicyPayload := mkPayload {
  payload_label : bytes;
  payload_bob_encrypting_key : bytes;
  payload_kfrags : list bytes;
  payload_public_key : bytes;
  payload_m : Z;
}.

Inductive policy_args : Type :=
| FederatedPolicy (ursulas : list Ursula) (payload : PolicyPayload)
| BlockchainPolicy (payload : PolicyPayload) (expiration : option Z)
    (value : option payment) (handpicked_ursulas : gset Ursula).

(** A policy, by the attributes [lawful.py] reads: [revocation_kit] maps a
    node id to its revocation, and its keys are the
    [revokable_addresses]. *)
Record Policy := mkPolicy {
  n : Z;
  treasure_map : TreasureMap;
  revocation_kit : gmap string bytes;
}.

(** An HTTP response of the middleware. *)
Record Response := mkResponse {
  status_code : Z;
  content : bytes;
}.

(** The exceptions that cross the methods of [lawful.py]. *)
Inductive exn : Type :=
| ValueError (msg : string)
| KeyError (msg : string)
| NotImplementedError
| AttributeError (name : string)
| IndexError
| BytestringSplittingError
| InvalidSignature
| NodeSeemsToBeDown
| ConnectTimeout
| NotFound
| UnexpectedResponse
| UmbralCorrectnessError
| NowhereToBeFound
| NotEnoughTeachers (msg : string)
| NotEnoughUrsulas (msg : string)
| IncorrectCFragReceived (evidence : IndisputableEvidence)
| IsFromTheFuture (msg : string)
| OtherException (name : string).

Abbreviation res := (result exn).

(** ** Collaborators *)

(** [nucypher.crypto.api] and [umbral]. *)
Class Crypto := {
  keccak_digest : bytes -> bytes;
  (** keccak-256: every digest is 32 bytes long *)
  keccak_digest_length : forall b, length (keccak_digest b) = 32%nat;
  (** [capsule.set_correctness_keys(delegating, receiving, verifying)]:
      the capsule afterwards, or what the call raised. *)
  set_correctness_keys : Capsule -> bytes -> bytes -> bytes -> res Capsule;
  (** [cfrag.verify_correctness(capsule)]. *)
  verify_correctness : CFrag -> Capsule -> bool;
  (** [Character.verify_from(data_source, message_kit, decrypt=True)]. *)
  verify_from : DataSource -> MessageKit -> res bytes;
}.

(** [Capsule.attach_cfrag]: the fragment is appended when its correctness
    proof verifies, and [UmbralCorrectnessError] is raised otherwise. *)
Definition attach_cfrag `{Crypto} (capsule : Capsule) (cfrag : CFrag)
  : res Capsule :=
  if verify_correctness cfrag capsule then
    Ok (mkCapsule (components capsule) (_attached_cfrags capsule ++ [cfrag]))
  else Raise UmbralCorrectnessError.

(** [nucypher.network.middleware.RestMiddleware]. *)
Class Middleware := {
  get_treasure_map_from_node : Ursula -> string -> res Response;
  reencrypt : WorkOrder -> res (list CFrag);
  revoke_arrangement : Ursula -> bytes -> res Response;
  (** [None] is [NotImplemented]. *)
  get_competitive_rate : res (option Z);
}.

(** [nucypher.policy.models] and [nucypher.blockchain.eth.policies]: the
    decoder of a treasure map, the policy constructors and the two methods
    of a policy that [grant] calls. *)
Class Models := {
  TreasureMap_from_bytes : bytes -> res TreasureMap;
  new_policy : policy_args -> res Policy;
  make_arrangements :
    Policy -> option payment -> option Z -> gset Ursula -> res Policy;
  enact : Policy -> res Policy;
  (** [DelegatingPower.generate_kfrags(bob_pubkey_enc, signer, label, m, n)]:
      the policy public key and the kfrags. *)
  generate_kfrags : bytes -> bytes -> bytes -> Z -> Z -> res (bytes * list bytes);
  (** truth value of the constant [NON_PAYMENT] *)
  NON_PAYMENT_truthy : bool;
}.

(** [random] and [FleetStateTracker.shuffled]: every outcome is a
    rearrangement of the population, nothing more is assumed. *)
Class Random := {
  shuffled : list Ursula -> list Ursula;
  shuffled_perm : forall l, Permutation (shuffled l) l;
  (** the choice [random.sample(population, k)] makes when [k] does not
      exceed the population: [k] elements at distinct positions *)
  sample_choice : list Ursula -> nat -> list Ursula;
  sample_choice_length : forall l k,
    (k <= length l)%nat -> length (sample_choice l k) = k;
  sample_choice_sub : forall l k,
    (k <= length l)%nat -> exists rest, Permutation (sample_choice l k ++ rest) l;
}.


(** The learning loop of [nucypher.network.nodes.Learner]: which nodes a
    character knows when a blocking wait ends.  Nothing is assumed of it. *)
Class Learning := {
  (** the default [timeout] of [block_until_specific_nodes_are_known] *)
  LEARNING_TIMEOUT : Z;
  (** after [learn_about_specific_nodes(addresses)] *)
  learn_about_specific_nodes :
    gmap string Ursula -> gset string -> gmap string Ursula;
  (** when [block_until_specific_nodes_are_known(addresses, timeout=...)]
      stops waiting *)
  known_after_waiting_for :
    gmap string Ursula -> gset string -> Z -> gmap string Ursula;
  (** when [block_until_number_of_known_nodes_is(number, timeout=...)]
      stops waiting *)
  known_after_waiting_for_number :
    gmap string Ursula -> Z -> Z -> gmap string Ursula;
}.

(** Modelled from the spec: [Learner.block_until_specific_nodes_are_known]
    is declared in [nucypher.network.nodes].  The spec has it block until the addressed nodes
    are known or the deadline passes, tolerating [allow_missing] nodes still
    unknown, and the docstring of [follow_treasure_map] has it raise when
    more than [allow_missing] are still unknown after the timeout.  It
    returns whether every address is known, with the known nodes as the
    wait left them. *)
Definition block_until_specific_nodes_are_known `{Learning}
    (known : gmap string Ursula) (addresses : gset string)
    (timeout : Z) (allow_missing : Z)
  : res bool * gmap string Ursula :=
  let known' := known_after_waiting_for known addresses timeout in
  let still_unknown := addresses ∖ dom known' in
  if decide (still_unknown = ∅) then (Ok true, known')
  else if Z.of_nat (size still_unknown) <=? allow_missing then (Ok false, known')
  else (Raise (NotEnoughTeachers "didn't find these nodes"), known').


(** [OrderedDict.__setitem__]: a key already present keeps its place. *)
Fixpoint odict_set {V} (d : list (string * V)) (k : string) (v : V)
  : list (string * V) :=
  match d with
  | [] => [(k, v)]
  | (k', v') :: rest =>
      if decide (k' = k) then (k, v) :: rest
      else (k', v') :: odict_set rest k v
  end.

(** ** Bob *)

Module Bob.

(** The attributes of a [Bob] that the methods below use.
    [_saved_work_orders] is a [WorkOrderHistory]: per node id, a dict from
    capsule to the last work order that held it. *)
Record t := mk {
  stamp : bytes;
  decrypting_key : bytes;
  treasure_maps : gmap string TreasureMap;
  known_nodes : gmap string Ursula;
  _saved_work_orders : gmap string (gmap bytes WorkOrder);
}.

(** Modelled from the spec: [TreasureMap] is declared in
    [nucypher.policy.models]; the spec has it a mapping
    {proxy_address → arrangement_id}, and a mapping is true when it is not
    empty. *)
Definition treasure_map_truthy (tm : TreasureMap) : bool :=
  match destinations tm with [] => false | _ :: _ => true end.

Definition _pick_treasure_map (self : t)
    (treasure_map : option TreasureMap) (map_id : option string)
  : res TreasureMap :=
  (* the branch under [if not treasure_map:] *)
  let by_map_id :=
    match map_id with
    | Some id =>
        if str_truthy id then
          match treasure_maps self !! id with
          | Some tm => Ok tm
          | None => Raise (KeyError id)
          end
        else Raise (ValueError "You need to pass either treasure_map or map_id.")
    | None => Raise (ValueError "You need to pass either treasure_map or map_id.")
    end in
  match treasure_map with
  | Some tm =>
      if treasure_map_truthy tm then
        if opt_truthy str_truthy map_id then
          Raise (ValueError
            "Don't pass both treasure_map and map_id - pick one or the other.")
        else Ok tm
      else by_map_id
  | None => by_map_id
  end.

Section WithCrypto.
Context `{Crypto}.

Definition construct_policy_hrac (self : t) (verifying_key : bytes)
    (label : bytes) : bytes :=
  keccak_digest (verifying_key ++ stamp self ++ label).

Definition construct_hrac_and_map_id (self : t) (verifying_key : bytes)
    (label : bytes) : bytes * string :=
  let hrac := construct_policy_hrac self verifying_key label in
  let map_id := hex (keccak_digest (verifying_key ++ hrac)) in
  (hrac, map_id).

(** The identifiers as the specification words them: the HRAC is the
    keccak digest over (delegator verifying key ‖ delegatee stamp ‖ label),
    the MapId the hex encoding of the keccak digest over (delegator verifying
    key ‖ HRAC). *)
Definition spec_HRAC (delegator_verifying_key delegatee_stamp label : bytes)
  : bytes :=
  keccak_digest (delegator_verifying_key ++ delegatee_stamp ++ label).

Definition spec_MapId (delegator_verifying_key hrac : bytes) : string :=
  hex (keccak_digest (delegator_verifying_key ++ hrac)).

End WithCrypto.

Section WithNetwork.
Context `{Middleware} `{Models} `{Random}.

(** The [for ... else] of [get_treasure_map_from_known_ursulas], over the
    nodes still to ask. *)
Fixpoint ask_for_treasure_map (nodes : list Ursula) (map_id : string)
  : res TreasureMap :=
  match nodes with
  | [] => Raise NowhereToBeFound
  | node :: rest =>
      match get_treasure_map_from_node node map_id with
      | Raise NodeSeemsToBeDown => ask_for_treasure_map rest map_id
      | Raise e => Raise e
      | Ok response =>
          if (status_code response =? 200)
             && negb (bool_decide (content response = []))
          then TreasureMap_from_bytes (content response)
          else ask_for_treasure_map rest map_id
      end
  end.

(** A node serves the map when its answer has status 200 and content. *)
Definition serves (response : Response) : bool :=
  (status_code response =? 200) && negb (bool_decide (content response = [])).

(** A node is passed over when it seems to be down or answers without
    serving the map. *)
Definition passed_over (node : Ursula) (map_id : string) : Prop :=
  get_treasure_map_from_node node map_id = Raise NodeSeemsToBeDown
  \/ exists response,
       get_treasure_map_from_node node map_id = Ok response
       /\ serves response = false.

Definition get_treasure_map_from_known_ursulas (self : t) (map_id : string)
  : res TreasureMap :=
  ask_for_treasure_map (shuffled (map_to_list (known_nodes self)).*2) map_id.

End WithNetwork.

(** *** Work orders *)

(** Modelled from the spec: [WorkOrderHistory] is declared in
    [nucypher.policy.models]; the spec has it a per-proxy history keyed by
    capsule.  Indexing it by a node id yields that node's dict, an empty one
    for a node without history (an absent entry and an empty dict are not
    told apart). *)
Definition history_getitem (h : gmap string (gmap bytes WorkOrder))
    (node_id : string) : gmap bytes WorkOrder :=
  default ∅ (h !! node_id).

(** [capsule in self._saved_work_orders[node_id]] *)
Definition in_history (self : t) (node_id : string) (c : Capsule) : bool :=
  bool_decide (is_Some (history_getitem (_saved_work_orders self) node_id
                          !! components c)).

(** [self._saved_work_orders[node_id][capsule] = work_order] *)
Definition save_work_order (self : t) (node_id : string) (c : Capsule)
    (work_order : WorkOrder) : t :=
  let h := _saved_work_orders self in
  mk (stamp self) (decrypting_key self) (treasure_maps self) (known_nodes self)
     (<[node_id := <[components c := work_order]> (history_getitem h node_id)]> h).

Definition with_known_nodes (self : t) (known : gmap string Ursula) : t :=
  mk (stamp self) (decrypting_key self) (treasure_maps self) known
     (_saved_work_orders self).

(** The loop of [generate_work_orders] over the destinations still to
    visit; [generated] is the [OrderedDict] built so far.  The history
    written before an exception stays written. *)
Fixpoint generate_work_orders_loop (self : t) (capsules : list Capsule)
    (num_ursulas : option Z) (dests : list (string * bytes))
    (generated : list (string * WorkOrder))
  : res (list (string * WorkOrder)) * t :=
  match dests with
  | [] => (Ok generated, self)
  | (node_id, arrangement_id) :: rest =>
      match known_nodes self !! node_id with
      | None => (Raise (KeyError node_id), self)
      | Some ursula =>
          let capsules_to_include :=
            List.filter (fun c => negb (in_history self node_id c)) capsules in
          let '(generated', self') :=
            (* [capsule] is the variable of the inner loop: after it, the
               last of [capsules] *)
            match capsules_to_include, last capsules with
            | _ :: _, Some capsule =>
                let work_order :=
                  mkWorkOrder arrangement_id capsules_to_include ursula
                              (stamp self) in
                (odict_set generated node_id work_order,
                 save_work_order self node_id capsule work_order)
            | _, _ => (generated, self)
            end in
          if bool_decide (num_ursulas = Some (Z.of_nat (length generated')))
          then (Ok generated', self')
          else generate_work_orders_loop self' capsules num_ursulas rest
                 generated'
      end
  end.

Definition generate_work_orders (self : t) (map_id : string)
    (capsules : list Capsule) (num_ursulas : option Z)
  : res (list (string * WorkOrder)) * t :=
  match treasure_maps self !! map_id with
  | None =>
      (Raise (KeyError ("Bob doesn't have the TreasureMap " +:+ map_id
                        +:+ "; can't generate work orders.")), self)
  | Some treasure_map_to_use =>
      if negb (treasure_map_truthy treasure_map_to_use) then
        (Raise (ValueError
           "Bob doesn't have a TreasureMap to match any of these capsules"),
         self)
      else
        generate_work_orders_loop self capsules num_ursulas
          (destinations treasure_map_to_use) []
  end.

(** The calls [retrieve] makes to its collaborators, with their arguments,
    in the order it makes them. *)
Inductive call : Type :=
| CallReencrypt (work_order : WorkOrder)
| CallAttachCfrag (capsule : Capsule) (cfrag : CFrag).

(** What a run of [retrieve] leaves behind: what it returned or raised,
    Bob and the message kit as it left them, and the calls it made. *)
Record run (A : Type) := mkRun {
  outcome : res A;
  bob : t;
  kit : MessageKit;
  calls : list call;
}.
Arguments mkRun {A}.
Arguments outcome {A}.
Arguments bob {A}.
Arguments kit {A}.
Arguments calls {A}.

(** Bob once the response to a work order has been recorded against each
    of its capsules. *)
Definition recorded (self : t) (work_order : WorkOrder) : t :=
  fold_left
    (fun s c =>
       save_work_order s (checksum_public_address (ursula work_order)) c
         work_order)
    (capsules work_order) self.

Section Retrieval.
Context `{Crypto} `{Middleware} `{Learning}.

(** The response is recorded against every capsule of the work order once
    [reencrypt] has returned. *)
Definition get_reencrypted_cfrags (self : t) (work_order : WorkOrder)
  : res (list CFrag) * t :=
  match reencrypt work_order with
  | Raise e => (Raise e, self)
  | Ok cfrags => (Ok cfrags, recorded self work_order)
  end.

Definition peek_at_treasure_map (self : t)
    (treasure_map : option TreasureMap) (map_id : option string)
  : res (gset string * gset string) :=
  treasure_map ← _pick_treasure_map self treasure_map map_id;
  let keys : gset string := list_to_set (destinations treasure_map).*1 in
  let known_treasure_ursulas := keys ∩ dom (known_nodes self) in
  let unknown_treasure_ursulas := keys ∖ dom (known_nodes self) in
  Ok (unknown_treasure_ursulas, known_treasure_ursulas).

(** [follow_treasure_map] with [new_thread=False]; the variant that defers
    the wait to a thread returns a [Deferred] and is left out. *)
Definition follow_treasure_map (self : t)
    (treasure_map : option TreasureMap) (map_id : option string)
    (block : bool) (timeout : Z) (allow_missing : Z)
  : res (gset string * gset string * Z) * t :=
  match _pick_treasure_map self treasure_map map_id with
  | Raise e => (Raise e, self)
  | Ok treasure_map =>
      match peek_at_treasure_map self (Some treasure_map) None with
      | Raise e => (Raise e, self)
      | Ok (unknown_ursulas, known_ursulas) =>
          let self :=
            if decide (unknown_ursulas = ∅) then self
            else with_known_nodes self
                   (learn_about_specific_nodes (known_nodes self)
                      unknown_ursulas) in
          (* [_push_certain_newly_discovered_nodes_here] registers where
             nodes learned later are to be pushed; it changes nothing that
             is read here *)
          if block then
            let '(waited, known) :=
              block_until_specific_nodes_are_known (known_nodes self)
                unknown_ursulas timeout allow_missing in
            match waited with
            | Raise e => (Raise e, with_known_nodes self known)
            | Ok _ =>
                (Ok (unknown_ursulas, known_ursulas, m treasure_map),
                 with_known_nodes self known)
            end
          else (Ok (unknown_ursulas, known_ursulas, m treasure_map), self)
      end
  end.

Definition collect_evidence (capsule : Capsule) (cfrag : CFrag)
    (ursula : Ursula) : IndisputableEvidence :=
  mkEvidence capsule cfrag ursula.

(** The [for work_order in work_orders: ... else: ...] of [retrieve]:
    [Ok tt] is the [break]. *)
Fixpoint collect_cfrags (self : t) (message_kit : MessageKit) (m : Z)
    (work_orders : list WorkOrder) (log : list call) : run unit :=
  match work_orders with
  | [] =>
      mkRun (Raise (NotEnoughUrsulas "Unable to snag m cfrags.")) self
            message_kit log
  | work_order :: rest =>
      let log := log ++ [CallReencrypt work_order] in
      match get_reencrypted_cfrags self work_order with
      | (Raise ConnectTimeout, self) =>
          collect_cfrags self message_kit m rest log
      | (Raise e, self) => mkRun (Raise e) self message_kit log
      | (Ok cfrags, self) =>
          match cfrags with
          | [] => mkRun (Raise IndexError) self message_kit log
          | cfrag :: _ =>
              let log := log ++ [CallAttachCfrag (capsule message_kit) cfrag] in
              match attach_cfrag (capsule message_kit) cfrag with
              | Ok capsule' =>
                  let message_kit :=
                    mkMessageKit capsule' (ciphertext message_kit) in
                  if m <=? Z.of_nat (length (_attached_cfrags capsule'))
                  then mkRun (Ok tt) self message_kit log
                  else collect_cfrags self message_kit m rest log
              | Raise UmbralCorrectnessError =>
                  let evidence :=
                    collect_evidence (capsule message_kit) cfrag
                                     (ursula work_order) in
                  mkRun (Raise (IncorrectCFragReceived evidence)) self
                        message_kit log
              | Raise e => mkRun (Raise e) self message_kit log
              end
          end
      end
  end.

(** [retrieve] up to its loop: the threshold [m] of the followed map and
    the work orders to dispatch, in order. *)
Definition retrieve_work_orders (self : t) (message_kit : MessageKit)
    (data_source : DataSource) (alice_verifying_key : bytes) (label : bytes)
  : run (Z * list WorkOrder) :=
  match set_correctness_keys (capsule message_kit) (policy_pubkey data_source)
          (decrypting_key self) alice_verifying_key with
  | Raise e => mkRun (Raise e) self message_kit []
  | Ok capsule =>
      let message_kit := mkMessageKit capsule (ciphertext message_kit) in
      let '(hrac, map_id) :=
        construct_hrac_and_map_id self alice_verifying_key label in
      match follow_treasure_map self None (Some map_id) true 10 0 with
      | (Raise e, self) => mkRun (Raise e) self message_kit []
      | (Ok (_, _, m), self) =>
          match generate_work_orders self map_id [capsule] None with
          | (Raise e, self) => mkRun (Raise e) self message_kit []
          | (Ok work_orders, self) =>
              mkRun (Ok (m, work_orders.*2)) self message_kit []
          end
      end
  end.

Definition retrieve (self : t) (message_kit : MessageKit)
    (data_source : DataSource) (alice_verifying_key : bytes) (label : bytes)
  : run (list bytes) :=
  let prepared :=
    retrieve_work_orders self message_kit data_source alice_verifying_key
      label in
  match outcome prepared with
  | Raise e => mkRun (Raise e) (bob prepared) (kit prepared) (calls prepared)
  | Ok (m, work_orders) =>
      let collected :=
        collect_cfrags (bob prepared) (kit prepared) m work_orders
          (calls prepared) in
      match outcome collected with
      | Raise e =>
          mkRun (Raise e) (bob collected) (kit collected) (calls collected)
      | Ok _ =>
          match verify_from data_source (kit collected) with
          | Raise e =>
              mkRun (Raise e) (bob collected) (kit collected)
                    (calls collected)
          | Ok delivered_cleartext =>
              mkRun (Ok [delivered_cleartext]) (bob collected)
                    (kit collected) (calls collected)
          end
      end
  end.

(** The runs of the loop of [retrieve], as a relation: from a message kit
    and the work orders still to dispatch, the calls made, how the loop
    ends and the message kit it leaves. *)
Inductive collects (m : Z)
  : MessageKit -> list WorkOrder -> list call -> res unit -> MessageKit -> Prop :=
| collects_nothing_left message_kit :
    collects m message_kit [] []
      (Raise (NotEnoughUrsulas "Unable to snag m cfrags.")) message_kit
| collects_timeout message_kit work_order rest log out message_kit' :
    reencrypt work_order = Raise ConnectTimeout ->
    collects m message_kit rest log out message_kit' ->
    collects m message_kit (work_order :: rest)
      (CallReencrypt work_order :: log) out message_kit'
| collects_failure message_kit work_order rest e :
    reencrypt work_order = Raise e ->
    e <> ConnectTimeout ->
    collects m message_kit (work_order :: rest) [CallReencrypt work_order]
      (Raise e) message_kit
| collects_no_cfrag message_kit work_order rest :
    reencrypt work_order = Ok [] ->
    collects m message_kit (work_order :: rest) [CallReencrypt work_order]
      (Raise IndexError) message_kit
| collects_incorrect message_kit work_order rest cfrag cfrags :
    reencrypt work_order = Ok (cfrag :: cfrags) ->
    verify_correctness cfrag (capsule message_kit) = false ->
    collects m message_kit (work_order :: rest)
      [CallReencrypt work_order; CallAttachCfrag (capsule message_kit) cfrag]
      (Raise (IncorrectCFragReceived
         (mkEvidence (capsule message_kit) cfrag (ursula work_order))))
      message_kit
| collects_enough message_kit work_order rest cfrag cfrags capsule' :
    reencrypt work_order = Ok (cfrag :: cfrags) ->
    attach_cfrag (capsule message_kit) cfrag = Ok capsule' ->
    m <= Z.of_nat (length (_attached_cfrags capsule')) ->
    collects m message_kit (work_order :: rest)
      [CallReencrypt work_order; CallAttachCfrag (capsule message_kit) cfrag]
      (Ok tt) (mkMessageKit capsule' (ciphertext message_kit))
| collects_more message_kit work_order rest cfrag cfrags capsule' log out
    message_kit' :
    reencrypt work_order = Ok (cfrag :: cfrags) ->
    attach_cfrag (capsule message_kit) cfrag = Ok capsule' ->
    Z.of_nat (length (_attached_cfrags capsule')) < m ->
    collects m (mkMessageKit capsule' (ciphertext message_kit)) rest log out
      message_kit' ->
    collects m message_kit (work_order :: rest)
      (CallReencrypt work_order
       :: CallAttachCfrag (capsule message_kit) cfrag :: log)
      out message_kit'.

(** The work orders a log shows dispatched, in order. *)
Definition dispatched (log : list call) : list WorkOrder :=
  omap (fun c => match c with
                 | CallReencrypt work_order => Some work_order
                 | CallAttachCfrag _ _ => None
                 end) log.

(** A call after which the loop of [retrieve] goes on or breaks: a
    [reencrypt] that timed out or returned a fragment, an [attach_cfrag] of
    a fragment that verifies. *)
Definition went_through (c : call) : Prop :=
  match c with
  | CallReencrypt work_order =>
      reencrypt work_order = Raise ConnectTimeout
      \/ exists cfrag cfrags, reencrypt work_order = Ok (cfrag :: cfrags)
  | CallAttachCfrag capsule cfrag => verify_correctness cfrag capsule = true
  end.

(** The work orders are exhausted: each was dispatched and no call put an
    end to the loop by an exception. *)
Definition exhausted (log : list call) (work_orders : list WorkOrder) : Prop :=
  dispatched log = work_orders /\ Forall went_through log.

(** The number of fragments attached to the capsule of a message kit. *)
Definition attached (message_kit : MessageKit) : Z :=
  Z.of_nat (length (_attached_cfrags (capsule message_kit))).

End Retrieval.

(** *** Joining a policy *)

(** [TreasureMap.orient(compass)] with the compass Bob makes for the Alice
    of the verifying key: the map with its payload decrypted and the
    signature checked, or what [orient] raised ([InvalidSignature]). *)
Class Orienting := {
  orient : TreasureMap -> bytes -> t -> res TreasureMap;
}.

(** [self.treasure_maps[map_id] = treasure_map] *)
Definition store_treasure_map (self : t) (map_id : string)
    (treasure_map : TreasureMap) : t :=
  mk (stamp self) (decrypting_key self)
     (<[map_id := treasure_map]> (treasure_maps self)) (known_nodes self)
     (_saved_work_orders self).

Section Joining.
Context `{Crypto} `{Middleware} `{Models} `{Random} `{Learning} `{Orienting}.

(** [learning_task_running] is [self._learning_task.running].  The truth
    value of [self.known_nodes] is that of its length, which [Alice.grant]
    takes with [len]. *)
Definition get_treasure_map (self : t) (learning_task_running : bool)
    (alice_verifying_key : bytes) (label : bytes) : res TreasureMap * t :=
  let '(_hrac, map_id) :=
    construct_hrac_and_map_id self alice_verifying_key label in
  if bool_decide (size (known_nodes self) = 0%nat)
     && negb learning_task_running
  then (Raise (NotEnoughTeachers ""), self)
  else
    match get_treasure_map_from_known_ursulas self map_id with
    | Raise e => (Raise e, self)
    | Ok treasure_map =>
        match orient treasure_map alice_verifying_key self with
        | Raise e => (Raise e, self)
        | Ok treasure_map =>
            (Ok treasure_map, store_treasure_map self map_id treasure_map)
        end
    end.

(** [node_list] only feeds [_node_ids_to_learn_about_immediately], which
    the learning loop reads; nothing here does. *)
Definition join_policy (self : t) (learning_task_running : bool)
    (label : bytes) (alice_pubkey_sig : bytes) (block : bool)
  : res unit * t :=
  match get_treasure_map self learning_task_running alice_pubkey_sig label
  with
  | (Raise e, self) => (Raise e, self)
  | (Ok treasure_map, self) =>
      match follow_treasure_map self (Some treasure_map) None block 10 0 with
      | (Raise e, self) => (Raise e, self)
      | (Ok _, self) => (Ok tt, self)
      end
  end.

End Joining.

(** *** Histories and logs, for the statements about them *)

(** Everything recorded in the history of [self] is recorded in that of
    [self']. *)
Definition history_kept (self self' : t) : Prop :=
  forall node_id c, in_history self node_id c = true ->
                    in_history self' node_id c = true.

(** The fragments that a log shows attached: those of the [attach_cfrag]
    calls that verified, in order. *)
Definition attached_in `{Crypto} (log : list call) : list CFrag :=
  omap (fun c => match c with
                 | CallAttachCfrag capsule cfrag =>
                     if verify_correctness cfrag capsule then Some cfrag
                     else None
                 | CallReencrypt _ => None
                 end) log.

(** What one turn of the loop of [generate_work_orders] does to the
    [OrderedDict] and to Bob. *)
Definition turn (self : t) (capsules : list Capsule) (node_id : string)
    (arrangement : bytes) (node : Ursula)
    (generated : list (string * WorkOrder))
  : list (string * WorkOrder) * t :=
  match List.filter (fun c => negb (in_history self node_id c)) capsules,
        last capsules with
  | _ :: _, Some c =>
      let work_order :=
        mkWorkOrder arrangement
          (List.filter (fun c => negb (in_history self node_id c)) capsules)
          node (stamp self) in
      (odict_set generated node_id work_order,
       save_work_order self node_id c work_order)
  | _, _ => (generated, self)
  end.

End Bob.

(** ** Alice *)

Module Alice.

(** The attributes of an [Alice] that the methods below use.  No method of
    this file assigns [self.n]; [n_attribute] is [None] when the instance
    has no such attribute. *)
Record t := mk {
  stamp : bytes;
  federated_only : bool;
  known_nodes : gmap string Ursula;
  n_attribute : option Z;
}.

Definition with_known_nodes (self : t) (known : gmap string Ursula) : t :=
  mk (stamp self) (federated_only self) known (n_attribute self).

(** Truth value of an [int] argument that defaults to [None]. *)
Definition int_truthy (o : option Z) : bool :=
  opt_truthy (fun z => negb (z =? 0)) o.

(** Truth value of [value]. *)
Definition payment_truthy `{Models} (o : option payment) : bool :=
  match o with
  | None => false
  | Some (Amount v) => negb (v =? 0)
  | Some NON_PAYMENT => NON_PAYMENT_truthy
  end.

(** The calls [grant] and [revoke] make to their collaborators, in order. *)
Inductive call : Type :=
| CallBlockUntilNumberOfKnownNodesIs (number : Z) (timeout : Z)
| CallRandomSample (population : list Ursula) (k : Z)
| CallMakeArrangements (policy : Policy) (handpicked_ursulas : gset Ursula)
| CallEnact (policy : Policy)
| CallBlockUntilSpecificNodesAreKnown (addresses : gset string)
    (allow_missing : Z)
| CallRevokeArrangement (ursula : Ursula) (revocation : bytes).

(** A call of the revocation loop. *)
Definition is_revocation (c : call) : Prop :=
  match c with CallRevokeArrangement _ _ => True | _ => False end.

Record run (A : Type) := mkRun {
  outcome : res A;
  alice : t;
  calls : list call;
}.
Arguments mkRun {A}.
Arguments outcome {A}.
Arguments alice {A}.
Arguments calls {A}.

Section Granting.
Context `{Models} `{Middleware} `{Random} `{Learning}.

Definition create_policy (self : t) (bob : Bob.t) (label : bytes)
    (m n : Z) (federated : bool) (expiration : option Z)
    (value : option payment) (handpicked_ursulas : gset Ursula)
  : res Policy :=
  if negb federated
     && negb (opt_truthy (fun _ => true) expiration && payment_truthy value)
  then Raise (ValueError
    "expiration and value are required arguments when creating a blockchain policy")
  else
    '(public_key, kfrags) ←
      generate_kfrags (Bob.decrypting_key bob) (stamp self) label m n;
    let payload :=
      mkPayload label (Bob.decrypting_key bob) kfrags public_key m in
    if federated_only self || federated then
      let known_nodes := shuffled (map_to_list (known_nodes self)).*2 in
      new_policy (FederatedPolicy known_nodes payload)
    else
      new_policy (BlockchainPolicy payload expiration value handpicked_ursulas).


(** [grant] up to the policy it creates: the policy, the value settled on
    and the handpicked set. *)
Definition grant_create_policy (self : t) (bob : Bob.t) (label : bytes)
    (m n : option Z) (expiration : option Z) (value : option payment)
    (handpicked_ursulas : option (gset Ursula))
  : res (Policy * Z * option payment * gset Ursula) :=
  match m, n with
  | Some m, Some n =>
      if negb (int_truthy (Some m)) then Raise NotImplementedError
      else if negb (int_truthy (Some n)) then Raise NotImplementedError
      else if negb (opt_truthy (fun _ => true) expiration)
      then Raise NotImplementedError
      else
        value ←
          (if negb (payment_truthy value) then
             rate ← get_competitive_rate;
             Ok (Some (match rate with
                       | None => NON_PAYMENT
                       | Some v => Amount v
                       end))
           else Ok value);
        let handpicked_ursulas := default ∅ handpicked_ursulas in
        policy ←
          create_policy self bob label m n (federated_only self) expiration
            value handpicked_ursulas;
        Ok (policy, n, value, handpicked_ursulas)
  | _, _ => Raise NotImplementedError
  end.


(** *** Revocation *)

Definition revocation_threshold (policy : Policy) : Z :=
  (n policy - m (treasure_map policy)) + 1.

(** The loop of [revoke] over the addresses still to visit;
    [failed_revocations] is the dict built so far. *)
Fixpoint revoke_loop (self : t) (policy : Policy)
    (addresses : list string) (failed_revocations : gmap string (bytes * exn))
    (log : list call) : run (gmap string (bytes * exn)) :=
  match addresses with
  | [] => mkRun (Ok failed_revocations) self log
  | node_id :: rest =>
      match known_nodes self !! node_id with
      | None => mkRun (Raise (KeyError node_id)) self log
      | Some ursula =>
          match revocation_kit policy !! node_id with
          | None => mkRun (Raise (KeyError node_id)) self log
          | Some revocation =>
              let log := log ++ [CallRevokeArrangement ursula revocation] in
              match revoke_arrangement ursula revocation with
              | Raise NotFound =>
                  revoke_loop self policy rest
                    (<[node_id := (revocation, NotFound)]> failed_revocations)
                    log
              | Raise UnexpectedResponse =>
                  revoke_loop self policy rest
                    (<[node_id := (revocation, UnexpectedResponse)]>
                       failed_revocations)
                    log
              | Raise e => mkRun (Raise e) self log
              | Ok response =>
                  revoke_loop self policy rest failed_revocations log
              end
          end
      end
  end.

Definition revoke (self : t) (policy : Policy)
  : run (gmap string (bytes * exn)) :=
  let revocation_threshold := revocation_threshold policy in
  let revokable_addresses := dom (revocation_kit policy) in
  let allow_missing := n policy - revocation_threshold in
  let log :=
    [CallBlockUntilSpecificNodesAreKnown revokable_addresses allow_missing] in
  let '(waited, known) :=
    block_until_specific_nodes_are_known (known_nodes self)
      revokable_addresses LEARNING_TIMEOUT allow_missing in
  let self := with_known_nodes self known in
  match waited with
  | Raise e => mkRun (Raise e) self log
  | Ok _ =>
      revoke_loop self policy (elements revokable_addresses) ∅ log
  end.

End Granting.

(** *** Active policies *)

(** [add_active_policy], on the [active_policies] dict of Alice;
    [policy_id] reads the [id] of a policy. *)
Definition add_active_policy {P : Type} (policy_id : P -> bytes)
    (active_policies : gmap bytes P) (active_policy : P)
  : res (gmap bytes P) :=
  if bool_decide (is_Some (active_policies !! policy_id active_policy))
  then Raise (KeyError "Policy already exists in active_policies.")
  else Ok (<[policy_id active_policy := active_policy]> active_policies).


(** *** What a revocation does, for the statements about [revoke] *)

Section RevocationCalls.
Context `{Middleware}.

(** The call of the revocation loop for an address: to the node known by
    it, with its revocation of the kit. *)
Definition revocation_call (self : t) (policy : Policy) (node_id : string)
  : option call :=
  node ← known_nodes self !! node_id;
  revocation ← revocation_kit policy !! node_id;
  Some (CallRevokeArrangement node revocation).

(** The entry of [failed_revocations] that the call for an address
    leaves, if any. *)
Definition revocation_failure (self : t) (policy : Policy) (node_id : string)
  : option (bytes * exn) :=
  node ← known_nodes self !! node_id;
  revocation ← revocation_kit policy !! node_id;
  match revoke_arrangement node revocation with
  | Raise NotFound => Some (revocation, NotFound)
  | Raise UnexpectedResponse => Some (revocation, UnexpectedResponse)
  | _ => None
  end.

End RevocationCalls.

End Alice.

(** ** Ursula: the node record codec *)

Module UrsulaCodec.

Definition PUBLIC_ADDRESS_LENGTH : nat := 20.

(** What [internal_splitter] yields: the fields of the payload after the
    version. *)
Record NodeInfo := mkNodeInfo {
  info_public_address : bytes;
  info_domains : bytes;
  info_timestamp : Z;
  info_interface_signature : bytes;
  info_identity_evidence : bytes;
  info_verifying_key : bytes;
  info_encrypting_key : bytes;
  info_certificate : bytes;
  info_rest_host : string;
  info_rest_port : Z;
}.

(** What the codec takes from [bytestring_splitter], [eth_utils],
    [nucypher.network.nicknames], [Teacher] and [Character]. *)
Class Codec := {
  LEARNER_VERSION : Z;
  (** [unknown_version_message.format(display_name, version, LEARNER_VERSION)] *)
  unknown_version_message : string -> Z -> Z -> string;
  (** [really_unknown_version_message.format(version, LEARNER_VERSION)] *)
  really_unknown_version_message : Z -> Z -> string;
  to_checksum_address : bytes -> string;
  (** the nickname, first component of [nickname_from_seed(checksum_address)] *)
  nickname_from_seed : string -> string;
  (** [BytestringSplitter(VariableLengthBytestring).repeat(...)] *)
  repeat_variable_length : bytes -> res (list bytes);
  (** the [BytestringKwargifier] of [internal_splitter] *)
  internal_splitter : bytes -> res NodeInfo;
  (** [VariableLengthBytestring.dispense(...)], each item through
      [constant_or_bytes] *)
  dispense_domains : bytes -> res (list bytes);
  (** [cls.from_public_keys(powers_and_material, federated_only, **node_info)] *)
  from_public_keys : Ursula -> res Ursula;
}.

(** A [BytestringSplitter] of one field of [size] bytes, called with
    [return_remainder=True]: the field and what follows it. *)
Definition split_fixed (size : nat) (splittable : bytes)
  : res (bytes * bytes) :=
  if (size <=? length splittable)%nat
  then Ok (take size splittable, drop size splittable)
  else Raise BytestringSplittingError.

(** [BytestringSplitter((int, 2, {"byteorder": "big"}))], with the
    remainder. *)
Definition version_splitter (splittable : bytes) : res (Z * bytes) :=
  '(version, remainder) ← split_fixed 2 splittable;
  Ok (int_from_bytes_big version, remainder).

Section Decoding.
Context `{Codec}.

(** ["⇀{}↽ ({})".format(nickname, checksum_address)] *)
Definition display_name (nickname checksum_address : string) : string :=
  "⇀" +:+ nickname +:+ "↽ (" +:+ checksum_address +:+ ")".

(** The message of [IsFromTheFuture] for a payload of a later version:
    the [try] salvages the address, and [except BytestringSplittingError]
    takes over when the payload is too short to hold one. *)
Definition future_message (version : Z) (payload : bytes) : string :=
  match split_fixed PUBLIC_ADDRESS_LENGTH payload with
  | Ok (canonical_address, _) =>
      let checksum_address := to_checksum_address canonical_address in
      let nickname := nickname_from_seed checksum_address in
      unknown_version_message (display_name nickname checksum_address)
        version LEARNER_VERSION
  | Raise _ => really_unknown_version_message version LEARNER_VERSION
  end.

(** [version = None] is the default [INCLUDED_IN_BYTESTRING]. *)
Definition from_bytes (ursula_as_bytes : bytes) (version : option Z)
    (federated_only : bool) : res Ursula :=
  '(version, payload) ←
    match version with
    | None => version_splitter ursula_as_bytes
    | Some version => Ok (version, ursula_as_bytes)
    end;
  if LEARNER_VERSION <? version then
    Raise (IsFromTheFuture (future_message version payload))
  else
    node_info ← internal_splitter payload;
    domains_vbytes ← dispense_domains (info_domains node_info);
    from_public_keys
      (mkUrsula
         (to_checksum_address (info_public_address node_info))
         (info_verifying_key node_info)
         (info_encrypting_key node_info)
         (list_to_set domains_vbytes)
         (info_timestamp node_info)
         (info_interface_signature node_info)
         (info_identity_evidence node_info)
         (info_certificate node_info)
         (info_rest_host node_info)
         (info_rest_port node_info)
         federated_only).

(** [mapM]: the list comprehension over [version_splitter] raises at the
    first record it cannot split. *)
Fixpoint split_versions (nodes_vbytes : list bytes) : res (list (Z * bytes)) :=
  match nodes_vbytes with
  | [] => Ok []
  | node :: rest =>
      split ← version_splitter node;
      splits ← split_versions rest;
      Ok (split :: splits)
  end.

(** The loop of [batch_from_bytes]; [ursulas] is the list built so far and
    [warnings] what [cls.log.warn] was given, in order. *)
Fixpoint batch_loop (versions_and_node_bytes : list (Z * bytes))
    (federated_only fail_fast : bool) (ursulas : list Ursula)
    (warnings : list string) : res (list Ursula) * list string :=
  match versions_and_node_bytes with
  | [] => (Ok ursulas, warnings)
  | (version, node_bytes) :: rest =>
      match from_bytes node_bytes (Some version) federated_only with
      | Raise (IsFromTheFuture message) =>
          if fail_fast then (Raise (IsFromTheFuture message), warnings)
          else batch_loop rest federated_only fail_fast ursulas
                 (warnings ++ [message])
      | Raise e => (Raise e, warnings)
      | Ok ursula =>
          batch_loop rest federated_only fail_fast (ursulas ++ [ursula])
            warnings
      end
  end.



Definition batch_from_bytes (ursulas_as_bytes : bytes)
    (federated_only fail_fast : bool) : res (list Ursula) * list string :=
  match repeat_variable_length ursulas_as_bytes with
  | Raise e => (Raise e, [])
  | Ok nodes_vbytes =>
      match split_versions nodes_vbytes with
      | Raise e => (Raise e, [])
      | Ok versions_and_node_bytes =>
          batch_loop versions_and_node_bytes federated_only fail_fast [] []
      end
  end.



End Decoding.

End UrsulaCodec.

(** ** Ursula: serialization

    [Ursula.__bytes__] writes what [Ursula.from_bytes] reads: the version
    of the teacher on two bytes, then the fields of the node. *)

Module UrsulaEncoding.

(** The digits of [i] in base 256, most significant first, on [length]
    bytes. *)
Fixpoint digits_big (length : nat) (i : Z) : bytes :=
  match length with
  | O => []
  | S length =>
      digits_big length (i / 256)
      ++ [default x00 (Byte.of_N (Z.to_N (i mod 256)))]
  end.

(** [int.to_bytes(length, "big")]: unsigned, and [OverflowError] for a
    negative integer or one too big for [length] bytes. *)
Definition int_to_bytes_big (length : nat) (i : Z) : res bytes :=
  if i <? 0 then Raise (OtherException "OverflowError")
  else if 256 ^ Z.of_nat length <=? i then
    Raise (OtherException "OverflowError")
  else Ok (digits_big length i).

(** What [__bytes__] takes from [Teacher], [Character],
    [bytestring_splitter] and [cryptography]. *)
Class Encoder := {
  TEACHER_VERSION : Z;
  canonical_public_address : Ursula -> bytes;
  (** [bytes(VariableLengthBytestring.bundle(domains))] *)
  bundle : gset bytes -> bytes;
  timestamp_bytes : Ursula -> bytes;
  (** [bytes(VariableLengthBytestring(b))] *)
  variable_length : bytes -> bytes;
  (** [certificate.public_bytes(Encoding.PEM)] *)
  public_bytes_pem : bytes -> bytes;
  (** [bytes(self.rest_information()[0])] *)
  rest_information : Ursula -> bytes;
}.

Section Encoding.
Context `{Encoder}.

Definition __bytes__ (self : Ursula) : res bytes :=
  version ← int_to_bytes_big 2 TEACHER_VERSION;
  let interface_info := variable_length (rest_information self) in
  let identity_evidence := variable_length (identity_evidence self) in
  let cert_vbytes := variable_length (public_bytes_pem (certificate self)) in
  Ok (version
      ++ canonical_public_address self
      ++ bundle (domains self)
      ++ timestamp_bytes self
      ++ interface_signature self
      ++ identity_evidence
      ++ verifying_key self
      ++ encrypting_key self
      ++ cert_vbytes
      ++ interface_info).

End Encoding.

End UrsulaEncoding.

(** ** Ursula: the alternate constructors

    [from_rest_url], [from_seednode_metadata], [from_teacher_uri] and
    [from_seed_and_stake_info] talk to the network, whose answers change
    with time: the network, the clock and the temporary node storage are
    a world [W] that every call of them takes and gives back. *)

Module Seeding.
Import UrsulaCodec.

(** What the constructors raise: the exception of a collaborator, or one
    of their own with its message. *)
Inductive error : Type :=
| Propagated (e : exn)
| ConnectionRefusedError (msg : string)
| SuspiciousActivity (msg : string)
| StakeNotImplementedError (msg : string).

(** What [log.warn] and [time.sleep] were given. *)
Inductive event : Type :=
| Warned (message : string)
| Slept (seconds : Z).

(** A node with the [certificate_filepath] that
    [from_seed_and_stake_info] sets on it. *)
Record SeedNode := mkSeedNode {
  node : Ursula;
  certificate_filepath : string;
}.

(** The attributes of a seednode's metadata that [from_seednode_metadata]
    reads. *)
Record SeednodeMetadata := mkSeednodeMetadata {
  metadata_checksum_public_address : string;
  metadata_rest_host : string;
  metadata_rest_port : Z;
}.

(** What the constructors take from [nucypher.network.protocols],
    [nucypher.blockchain.eth.decorators], the middleware in use (the one
    passed, or the [RestMiddleware()] made when none is),
    [cryptography.x509], [ForgetfulNodeStorage], [Teacher] and [time]. *)
Class Network (W : Type) := {
  (** the decorator [@validate_checksum_address], on the call's
      [checksum_address] *)
  validate_checksum_address : option string -> res unit;
  (** hostname, port and checksum address *)
  parse_node_uri : string -> res (string * Z * option string);
  get_certificate : string -> Z -> W -> res bytes * W;
  (** the values of
      [certificate.subject.get_attributes_for_oid(NameOID.COMMON_NAME)] *)
  common_names : bytes -> list string;
  (** [ForgetfulNodeStorage(federated_only).store_node_certificate] *)
  store_node_certificate : bool -> bytes -> W -> res string * W;
  node_information : string -> Z -> string -> W -> res bytes * W;
  (** [node.verify_node(network_middleware, accept_federated_only,
      certificate_filepath)] *)
  verify_node : Ursula -> bool -> string -> W -> res unit * W;
  (** [temp_node_storage.forget()] *)
  forget : W -> W;
  (** [time.sleep(seconds)] *)
  sleep : Z -> W -> W;
}.

(** A call that takes the world and gives it back, with its value or its
    exception. *)
Definition M (W A : Type) : Type := W -> result error A * W.

Definition ret {W A} (v : A) : M W A := fun w => (Ok v, w).

Definition raise {W A} (e : error) : M W A := fun w => (Raise e, w).

Definition bind {W A B} (c : M W A) (k : A -> M W B) : M W B :=
  fun w =>
    match c w with
    | (Ok v, w') => k v w'
    | (Raise e, w') => (Raise e, w')
    end.

(** A call that leaves the world alone. *)
Definition lift {W A} (r : res A) : M W A :=
  fun w =>
    match r with
    | Ok v => (Ok v, w)
    | Raise e => (Raise (Propagated e), w)
    end.

(** A call of a collaborator. *)
Definition call {W A} (f : W -> res A * W) : M W A :=
  fun w =>
    match f w with
    | (Ok v, w') => (Ok v, w')
    | (Raise e, w') => (Raise (Propagated e), w')
    end.

#[global] Instance M_ret {W} : MRet (M W) := fun _ v => ret v.
#[global] Instance M_bind {W} : MBind (M W) := fun _ _ k c => bind c k.

Section Constructors.
Context {W : Type} `{Codec} `{Network W}.

Definition from_rest_url (host : string) (port : Z)
    (certificate_filepath : string) (federated_only : bool) : M W Ursula :=
  response_data ← call (node_information host port certificate_filepath);
  lift (from_bytes response_data None federated_only).

(** ['{}:{}'.format(host, port)] *)
Definition host_and_port (host : string) (port : Z) : string :=
  host +:+ ":" +:+ pretty port.

(** The message of [SuspiciousActivity]. *)
Definition different_wallet_address (found expected : string) : string :=
  "This seed node has a different wallet address: " +:+ found
  +:+ " (expected " +:+ expected
  +:+ ").  Are you sure this is a seednode?".

(** [checksum_address] is the keyword argument; the body binds the name
    again, to what [parse_node_uri] reads in [seed_uri]. *)
Definition from_seed_and_stake_info (seed_uri : string)
    (federated_only : bool) (minimum_stake : Z)
    (checksum_address : option string) : M W SeedNode :=
  _ ← lift (validate_checksum_address checksum_address);
  '(host, port, checksum_address) ← lift (parse_node_uri seed_uri);
  certificate ← call (get_certificate host port);
  real_host ← lift (match common_names certificate with
                    | name :: _ => Ok name
                    | [] => Raise IndexError
                    end);
  certificate_filepath ←
    call (store_node_certificate federated_only certificate);
  potential_seed_node ←
    from_rest_url real_host port certificate_filepath federated_only;
  _ ← match checksum_address with
      | Some expected =>
          if str_truthy expected
             && negb (bool_decide
                        (expected
                         = checksum_public_address potential_seed_node))
          then raise (SuspiciousActivity
                        (different_wallet_address
                           (checksum_public_address potential_seed_node)
                           expected))
          else ret tt
      | None => ret tt
      end;
  _ ← (if 0 <? minimum_stake
       then raise (StakeNotImplementedError
                     "Stake checking is not implemented yet.")
       else ret tt);
  _ ← call (verify_node potential_seed_node federated_only
              certificate_filepath);
  _ ← (fun w => (Ok tt, forget w));
  ret (mkSeedNode potential_seed_node certificate_filepath).

Definition from_seednode_metadata (seednode_metadata : SeednodeMetadata)
    (federated_only : bool) (minimum_stake : Z) : M W SeedNode :=
  from_seed_and_stake_info
    (host_and_port (metadata_rest_host seednode_metadata)
       (metadata_rest_port seednode_metadata))
    federated_only minimum_stake
    (Some (metadata_checksum_public_address seednode_metadata)).

(** The message that [from_teacher_uri] logs before it sleeps. *)
Definition retry_warning (round interval : Z) : string :=
  "Can't connect to seed node (attempt " +:+ pretty round
  +:+ ").  Will retry in " +:+ pretty interval +:+ " seconds.".

(** [__attempt], the closure of [from_teacher_uri], with the events it
    logs.  [fuel] bounds the depth of the recursion; [None] is a recursion
    cut short by it. *)
Fixpoint __attempt (fuel : nat) (federated_only : bool)
    (teacher_uri hostname : string) (port : Z)
    (checksum_address : option string) (min_stake : Z)
    (round interval : Z) (w : W)
  : option (result error SeedNode * W * list event) :=
  match fuel with
  | O => None
  | S fuel =>
      if 3 <? round then
        Some (Raise (ConnectionRefusedError
                       ("Host " +:+ teacher_uri +:+ " Refused Connection")),
              w, [])
      else
        match from_seed_and_stake_info (host_and_port hostname port)
                federated_only min_stake checksum_address w with
        | (Raise (Propagated NodeSeemsToBeDown), w') =>
            match __attempt fuel federated_only teacher_uri hostname port
                    checksum_address min_stake (round + 1) 10
                    (sleep interval w') with
            | Some (teacher, w'', events) =>
                Some (teacher, w'',
                      Warned (retry_warning round interval)
                      :: Slept interval :: events)
            | None => None
            end
        | (teacher, w') => Some (teacher, w', [])
        end
  end.

Definition from_teacher_uri (fuel : nat) (federated_only : bool)
    (teacher_uri : string) (min_stake : Z) (w : W)
  : option (result error SeedNode * W * list event) :=
  match parse_node_uri teacher_uri with
  | Raise e => Some (Raise (Propagated e), w, [])
  | Ok (hostname, port, checksum_address) =>
      __attempt fuel federated_only teacher_uri hostname port
        checksum_address min_stake 1 10 w
  end.

(** The world after the attempts that [from_teacher_uri] has given up
    on: each is followed by a sleep of ten seconds. *)
Definition after_attempts (federated_only : bool) (hostname : string)
    (port : Z) (checksum_address : option string) (min_stake : Z)
    (attempts : nat) (w : W) : W :=
  Nat.iter attempts
    (fun w =>
       sleep 10
         (from_seed_and_stake_info (host_and_port hostname port)
            federated_only min_stake checksum_address w).2)
    w.

(** What [from_teacher_uri] has logged after [attempts] attempts it has
    given up on. *)
Definition retries_logged (attempts : nat) : list event :=
  flat_map (fun round => [Warned (retry_warning (Z.of_nat round) 10);
                          Slept 10])
    (seq 1 attempts).

End Constructors.

End Seeding.

(** ** Concrete collaborators and values

    Small instances of the collaborators, on which the statements of
    Parts II and III are run. *)

Module Fixtures.

Definition ursula_at (address : string) : Ursula :=
  mkUrsula address [] [] ∅ 0 [] [] [] "localhost" 9151 true.

(** A stand-in for keccak-256 with the right digest length: the input,
    zero-padded or cut to 32 bytes. *)
Definition toy_digest (b : bytes) : bytes := take 32 (b ++ replicate 32 x00).

(** A fragment counts as correct when it is not empty. *)
Definition toy_crypto : Crypto := {|
  keccak_digest := toy_digest;
  keccak_digest_length := fun b =>
    eq_trans (length_take (b ++ replicate 32 x00) 32)
      (Nat.min_l _ _
         (eq_ind_r (fun k => (32 <= k)%nat)
            (Nat.le_trans _ _ _
               (Nat.eq_le_incl _ _ (eq_sym (length_replicate 32 x00)))
               (Nat.le_add_l _ _))
            (length_app b (replicate 32 x00))));
  set_correctness_keys := fun c _ _ _ => Ok c;
  verify_correctness := fun cfrag _ => negb (bool_decide (cfrag = []));
  verify_from := fun _ message_kit => Ok (ciphertext message_kit);
|}.

(** No shuffling, and the first [k] of the population as the sample. *)
Definition identity_shuffle : Random := {|
  shuffled := fun l => l;
  shuffled_perm := fun l => Permutation_refl l;
  sample_choice := fun l k => take k l;
  sample_choice_length := fun l k Hk =>
    eq_trans (length_take l k) (Nat.min_l _ _ Hk);
  sample_choice_sub := fun l k _ =>
    ex_intro _ (drop k l)
      (eq_ind_r (fun x => Permutation x l) (Permutation_refl l)
         (take_drop k l));
|}.

(** Records of three bytes; a payload of one byte decodes to a node. *)
Fixpoint chunks_of_three (b : bytes) : list bytes :=
  match b with
  | x :: y :: z :: rest => [x; y; z] :: chunks_of_three rest
  | [] => []
  | _ => [b]
  end.

Definition toy_codec : UrsulaCodec.Codec := {|
  UrsulaCodec.LEARNER_VERSION := 2;
  UrsulaCodec.unknown_version_message := fun display_name version learner =>
    display_name +:+ " purported to be of version " +:+ pretty version
    +:+ ", but we're only version " +:+ pretty learner +:+ ".";
  UrsulaCodec.really_unknown_version_message := fun version learner =>
    "Unable to glean address from node that perhaps purported to be version "
    +:+ pretty version +:+ ".  We're only version " +:+ pretty learner +:+ ".";
  UrsulaCodec.to_checksum_address := fun b => "0x" +:+ hex b;
  UrsulaCodec.nickname_from_seed := fun _ => "Nick";
  UrsulaCodec.repeat_variable_length := fun b => Ok (chunks_of_three b);
  UrsulaCodec.internal_splitter := fun payload =>
    match payload with
    | [x] => Ok (UrsulaCodec.mkNodeInfo [x] [] 0 [] [] [] [] [] "localhost" 9151)
    | _ => Raise BytestringSplittingError
    end;
  UrsulaCodec.dispense_domains := fun _ => Ok [];
  UrsulaCodec.from_public_keys := fun u => Ok u;
|}.

Definition map_one : TreasureMap := mkTreasureMap 1 [("0xA", [x01])].

Definition bob_with_map : Bob.t :=
  Bob.mk [x0b] [x0d] {["aa" := map_one]} {["0xA" := ursula_at "0xA"]} ∅.

Definition capsule_one : Capsule := mkCapsule [x01] [].
Definition capsule_two : Capsule := mkCapsule [x02] [].

(** A network of five nodes.  [0xA], [0xD] and [0xE] answer as they
    should; [0xB] times out, seems down and does not find what it is asked
    to revoke; [0xC] answers 404 for a map and returns a fragment that does
    not verify. *)
Definition is_at (address : string) (node : Ursula) : bool :=
  String.eqb (checksum_public_address node) address.

Definition toy_middleware : Middleware := {|
  get_treasure_map_from_node := fun node _ =>
    if is_at "0xB" node then Raise NodeSeemsToBeDown
    else if is_at "0xC" node then Ok (mkResponse 404 [])
    else Ok (mkResponse 200 [x2a]);
  reencrypt := fun work_order =>
    if is_at "0xB" (ursula work_order) then Raise ConnectTimeout
    else if is_at "0xC" (ursula work_order) then Ok [[]]
    else Ok [[xaa]];
  revoke_arrangement := fun node _ =>
    if is_at "0xB" node then Raise NotFound else Ok (mkResponse 200 []);
  get_competitive_rate := Ok None;
|}.

(** A learning loop that finds no one. *)
Definition no_learning : Learning := {|
  LEARNING_TIMEOUT := 10;
  learn_about_specific_nodes := fun known _ => known;
  known_after_waiting_for := fun known _ _ => known;
  known_after_waiting_for_number := fun known _ _ => known;
|}.

Definition five_nodes : gmap string Ursula :=
  list_to_map
    (map (fun a => (a, ursula_at a)) ["0xA"; "0xB"; "0xC"; "0xD"; "0xE"]%string).


(** The map id of the policy of label [[]] that the holder of the
    verifying key [[]] made for the Bob of stamp [[x0b]]. *)
Definition toy_map_id : string :=
  @Bob.spec_MapId toy_crypto [] (@Bob.spec_HRAC toy_crypto [] [x0b] []).

(** That Bob, holding the map of the policy. *)
Definition bob_retrieving (threshold : Z) (addresses : list string) : Bob.t :=
  Bob.mk [x0b] [x0d]
    {[toy_map_id := mkTreasureMap threshold (map (fun a => (a, [x01])) addresses)]}
    five_nodes ∅.

(** Policies whose arrangements are always made. *)
Definition toy_models : Models := {|
  TreasureMap_from_bytes := fun _ => Ok (mkTreasureMap 1 [("0xA"%string, [x01])]);
  new_policy := fun args =>
    match args with
    | FederatedPolicy _ payload | BlockchainPolicy payload _ _ _ =>
        Ok (mkPolicy (Z.of_nat (length (payload_kfrags payload)))
              (mkTreasureMap (payload_m payload) []) ∅)
    end;
  make_arrangements := fun policy _ _ _ => Ok policy;
  enact := fun policy => Ok policy;
  generate_kfrags := fun _ _ _ _ n => Ok ([], replicate (Z.to_nat n) []);
  NON_PAYMENT_truthy := true;
|}.

(** A federated Alice who knows the first [k] of the five nodes. *)
Definition alice_knowing (k : nat) : Alice.t :=
  Alice.mk [x0a] true
    (list_to_map
       (map (fun a => (a, ursula_at a))
          (take k ["0xA"; "0xB"; "0xC"; "0xD"; "0xE"]%string)))
    (Some 5).

(** A policy of three kfrags with threshold 2, over [0xA], [0xB], [0xC]. *)
Definition policy_two_of_three : Policy :=
  mkPolicy 3
    (mkTreasureMap 2 (map (fun a => (a, [x01])) ["0xA"; "0xB"; "0xC"]%string))
    (list_to_map (map (fun a => (a, [x0f])) ["0xA"; "0xB"; "0xC"]%string)).

Definition kit_one : MessageKit := mkMessageKit capsule_one [x42].
Definition enrico : DataSource := mkDataSource [] [].

Definition order_for (address : string) : WorkOrder :=
  mkWorkOrder [x01] [capsule_one] (ursula_at address) [x0b].

(** A compass that takes every map as it is. *)
Definition toy_orienting : Bob.Orienting := {|
  Bob.orient := fun treasure_map _ _ => Ok treasure_map;
|}.

(** A Bob who knows no one and holds nothing. *)
Definition bob_alone : Bob.t := Bob.mk [x0b] [x0d] ∅ ∅ ∅.

(** A teacher of version 2 that writes the address [0x0a] and leaves
    every other field empty. *)
Definition toy_encoder : UrsulaEncoding.Encoder := {|
  UrsulaEncoding.TEACHER_VERSION := 2;
  UrsulaEncoding.canonical_public_address := fun _ => [x0a];
  UrsulaEncoding.bundle := fun _ => [];
  UrsulaEncoding.timestamp_bytes := fun _ => [];
  UrsulaEncoding.variable_length := fun b => b;
  UrsulaEncoding.public_bytes_pem := fun b => b;
  UrsulaEncoding.rest_information := fun _ => [];
|}.

(** A network whose world is the clock, in seconds.  The seed is down
    until the clock reads [up_at]; from then on it shows a certificate
    for [seed.example] and answers the bytes of a node of version 2 at
    the address [0x0a], which verifies. *)
Definition toy_network (up_at : Z) : Seeding.Network Z := {|
  Seeding.validate_checksum_address := fun _ => Ok tt;
  Seeding.parse_node_uri := fun uri => Ok (uri, 9151, None);
  Seeding.get_certificate := fun _ _ clock =>
    if clock <? up_at then (Raise NodeSeemsToBeDown, clock)
    else (Ok [x63], clock);
  Seeding.common_names := fun _ => ["seed.example"%string];
  Seeding.store_node_certificate := fun _ _ clock =>
    (Ok "seed.example.pem"%string, clock);
  Seeding.node_information := fun _ _ _ clock => (Ok [x00; x02; x0a], clock);
  Seeding.verify_node := fun _ _ _ clock => (Ok tt, clock);
  Seeding.forget := fun clock => clock;
  Seeding.sleep := fun seconds clock => clock + seconds;
|}.

End Fixtures.

(* ===================================================================== *)
(** * Part II. Theorems                                                   *)
(* ===================================================================== *)

(** ** Python values *)

Lemma hex_of_byte_length (x : byte) : String.length (hex_of_byte x) = 2%nat.
Proof. reflexivity. Qed.

Lemma string_length_app (s1 s2 : string) :
  String.length (s1 ++ s2)%string = (String.length s1 + String.length s2)%nat.
Proof. induction s1 as [|c s1 IH]; simpl; [done | by rewrite IH]. Qed.

Lemma hex_length (b : bytes) : String.length (hex b) = (2 * length b)%nat.
Proof.
  induction b as [|x b IH]; [done |].
  change (hex (x :: b)) with (hex_of_byte x ++ hex b)%string.
  rewrite string_length_app, hex_of_byte_length, IH. simpl length. lia.
Qed.

Lemma unhex_hex_of_byte (x : byte) (s : string) (bs : bytes) :
  unhex s = Some bs -> unhex (hex_of_byte x ++ s)%string = Some (x :: bs).
Proof.
  intros Hs.
  change (unhex (hex_of_byte x ++ s)%string) with
    (match unhex_digit (hex_digit (Byte.to_N x / 16)),
           unhex_digit (hex_digit (Byte.to_N x mod 16)), unhex s with
     | Some h, Some l, Some bs =>
         match Byte.of_N (16 * h + l) with
         | Some x => Some (x :: bs)
         | None => None
         end
     | _, _, _ => None
     end).
  rewrite Hs. destruct x; reflexivity.
Qed.

Lemma unhex_hex (b : bytes) : unhex (hex b) = Some b.
Proof.
  induction b as [|x b IH]; [done |].
  change (hex (x :: b)) with (hex_of_byte x ++ hex b)%string.
  by apply unhex_hex_of_byte.
Qed.

(** [bytes.hex()] loses nothing: distinct digests have distinct encodings. *)
Lemma hex_inj (b1 b2 : bytes) : hex b1 = hex b2 -> b1 = b2.
Proof.
  intros Heq. pose proof (unhex_hex b1) as H1. rewrite Heq, unhex_hex in H1.
  congruence.
Qed.

(** ** Bob: choosing the treasure map *)

(** C9 (as amended).  An argument counts as given when it is truthy: a
    treasure map that is not [None] and has a destination, a map id that is
    not [None] and not the empty string.  With neither given
    [_pick_treasure_map] raises [ValueError], with both given it raises
    [ValueError], with the treasure map alone it returns that map, and with
    the map id alone it returns the map stored under it, or raises
    [KeyError] when none is. *)
Theorem pick_treasure_map_by_truth_value (self : Bob.t)
    (treasure_map : option TreasureMap) (map_id : option string) :
  match opt_truthy Bob.treasure_map_truthy treasure_map,
        opt_truthy str_truthy map_id with
  | false, false =>
      Bob._pick_treasure_map self treasure_map map_id
      = Raise (ValueError "You need to pass either treasure_map or map_id.")
  | true, true =>
      Bob._pick_treasure_map self treasure_map map_id
      = Raise (ValueError
          "Don't pass both treasure_map and map_id - pick one or the other.")
  | true, false =>
      exists tm, treasure_map = Some tm
        /\ Bob._pick_treasure_map self treasure_map map_id = Ok tm
  | false, true =>
      exists id, map_id = Some id
        /\ Bob._pick_treasure_map self treasure_map map_id
           = match Bob.treasure_maps self !! id with
             | Some tm => Ok tm
             | None => Raise (KeyError id)
             end
  end.
Proof.
  unfold Bob._pick_treasure_map.
  destruct treasure_map as [tm|]; simpl.
  - destruct (Bob.treasure_map_truthy tm); destruct map_id as [id|]; simpl;
      try destruct (str_truthy id); eauto.
  - destruct map_id as [id|]; simpl; try destruct (str_truthy id); eauto.
Qed.

(** C9, the claim as stated fails: with a treasure map and the empty
    string as map id both passed, the map is returned and nothing is raised;
    and a map id passed alone raises [KeyError] when no map is stored
    under it. *)
Lemma pick_treasure_map_both_passed_returns :
  Bob._pick_treasure_map Fixtures.bob_with_map (Some Fixtures.map_one)
    (Some ""%string) = Ok Fixtures.map_one
  /\ Bob._pick_treasure_map Fixtures.bob_with_map None (Some "bb"%string)
     = Raise (KeyError "bb").
Proof. split; reflexivity. Qed.

(** ** Bob: work orders *)

Lemma in_history_save (self : Bob.t) (node_id node_id' : string)
    (c c' : Capsule) (work_order : WorkOrder) :
  Bob.in_history (Bob.save_work_order self node_id c work_order) node_id' c'
  = true
  <-> (node_id' = node_id /\ components c' = components c)
      \/ Bob.in_history self node_id' c' = true.
Proof.
  unfold Bob.in_history, Bob.save_work_order, Bob.history_getitem. simpl.
  rewrite !bool_decide_eq_true.
  destruct (decide (node_id' = node_id)) as [->|Hnode].
  - rewrite lookup_insert_eq. simpl.
    destruct (decide (components c' = components c)) as [->|Hcapsule].
    + rewrite lookup_insert_eq. split; [auto | by eauto].
    + rewrite lookup_insert_ne by done. split; [auto | by intros [[_ ?]|?]].
  - rewrite lookup_insert_ne by done. split; [auto | by intros [[? _]|?]].
Qed.

Lemma odict_set_keys {V} (d : list (string * V)) (k k' : string) (v : V) :
  k' ∈ (odict_set d k v).*1 <-> k' = k \/ k' ∈ d.*1.
Proof.
  induction d as [|[k0 v0] d IH]; simpl.
  - rewrite list_elem_of_singleton. split; [auto |].
    by intros [?|?%not_elem_of_nil].
  - destruct (decide (k0 = k)) as [->|Hk]; simpl;
      rewrite !elem_of_cons; [tauto |]. rewrite IH. tauto.
Qed.

(** The loop of [generate_work_orders] for a single capsule: the history
    only grows, and a node gets a work order only when the capsule was not
    in its history, where it is afterwards. *)
Lemma generate_work_orders_loop_single (c : Capsule) (num_ursulas : option Z)
    (dests : list (string * bytes)) :
  forall (self self' : Bob.t) (generated generated' : list (string * WorkOrder)),
    Bob.generate_work_orders_loop self [c] num_ursulas dests generated
    = (Ok generated', self') ->
    (forall node_id, Bob.in_history self node_id c = true ->
                     Bob.in_history self' node_id c = true)
    /\ (forall node_id, node_id ∈ generated'.*1 ->
          node_id ∈ generated.*1
          \/ (Bob.in_history self node_id c = false
              /\ Bob.in_history self' node_id c = true)).
Proof.
  induction dests as [|[node_id arrangement] dests IH];
    intros self self' generated generated'; simpl.
  { intros [= <- <-]. auto. }
  destruct (Bob.known_nodes self !! node_id) as [node|]; [|done].
  destruct (Bob.in_history self node_id c) eqn:Hseen; simpl.
  - destruct (bool_decide _); [intros [= <- <-]; auto | apply IH].
  - set (work_order := mkWorkOrder arrangement [c] node (Bob.stamp self)).
    set (self1 := Bob.save_work_order self node_id c work_order).
    assert (Hgrows : forall node_id', Bob.in_history self node_id' c = true ->
                                      Bob.in_history self1 node_id' c = true).
    { intros node_id' Hin. apply in_history_save. by right. }
    assert (Hsaved : Bob.in_history self1 node_id c = true).
    { apply in_history_save. by left. }
    assert (Hnew : forall node_id',
      node_id' ∈ (odict_set generated node_id work_order).*1 ->
      node_id' ∈ generated.*1
      \/ (Bob.in_history self node_id' c = false
          /\ Bob.in_history self1 node_id' c = true)).
    { intros node_id' [->|Hold]%odict_set_keys; auto. }
    destruct (bool_decide _).
    + intros [= <- <-]. auto.
    + intros Hrest. destruct (IH _ _ _ _ Hrest) as [Hgrows' Hnew'].
      split; [auto |]. intros node_id' [Hin|[Hnot Hthen]]%Hnew'.
      * destruct (Hnew _ Hin) as [?|[? ?]]; auto.
      * right. split; [|done].
        destruct (Bob.in_history self node_id' c) eqn:Hbefore; [|done].
        apply Hgrows in Hbefore. congruence.
Qed.

(** X1, what holds of C1 on the code.  With one capsule per call, a
    (proxy, capsule) pair is issued at most once: a node that got a work
    order for the capsule gets none in any later call for that capsule,
    whatever was recorded in between. *)
Theorem generate_work_orders_single_capsule_once (self self1 later self2 : Bob.t)
    (map_id map_id' : string) (c : Capsule) (num_ursulas num_ursulas' : option Z)
    (first second : list (string * WorkOrder)) :
  Bob.generate_work_orders self map_id [c] num_ursulas = (Ok first, self1) ->
  (forall node_id, Bob.in_history self1 node_id c = true ->
                   Bob.in_history later node_id c = true) ->
  Bob.generate_work_orders later map_id' [c] num_ursulas' = (Ok second, self2) ->
  forall node_id, node_id ∈ first.*1 -> node_id ∉ second.*1.
Proof.
  unfold Bob.generate_work_orders. intros Hfirst Hkept Hsecond node_id Hin Hagain.
  destruct (Bob.treasure_maps self !! map_id) as [tm|]; [|done].
  destruct (Bob.treasure_map_truthy tm); [|done]. simpl in Hfirst.
  destruct (Bob.treasure_maps later !! map_id') as [tm'|]; [|done].
  destruct (Bob.treasure_map_truthy tm'); [|done]. simpl in Hsecond.
  apply generate_work_orders_loop_single in Hfirst as [_ Hfirst].
  apply generate_work_orders_loop_single in Hsecond as [_ Hsecond].
  destruct (Hfirst _ Hin) as [Hnil|[_ Hseen]]; [by apply not_elem_of_nil in Hnil |].
  destruct (Hsecond _ Hagain) as [Hnil|[Hnot _]];
    [by apply not_elem_of_nil in Hnil |].
  apply Hkept in Hseen. congruence.
Qed.

(** C1, on the code: Bob holds a map with the single destination [0xA] and
    asks twice for work orders for the same two capsules, with no response
    recorded in between.  The first call issues one work order for both
    capsules and records it against the second capsule only, so the second
    call issues a work order for the first capsule to the same node
    again. *)
Lemma generate_work_orders_reissues_first_capsule :
  let capsules := [Fixtures.capsule_one; Fixtures.capsule_two] in
  let first := Bob.generate_work_orders Fixtures.bob_with_map "aa" capsules None in
  let second := Bob.generate_work_orders first.2 "aa" capsules None in
  first.1
  = Ok [("0xA"%string,
         mkWorkOrder [x01] [Fixtures.capsule_one; Fixtures.capsule_two]
           (Fixtures.ursula_at "0xA") [x0b])]
  /\ Bob.in_history first.2 "0xA" Fixtures.capsule_one = false
  /\ Bob.in_history first.2 "0xA" Fixtures.capsule_two = true
  /\ second.1
     = Ok [("0xA"%string,
            mkWorkOrder [x01] [Fixtures.capsule_one]
              (Fixtures.ursula_at "0xA") [x0b])].
Proof. vm_compute. repeat split. Qed.

(** ** Bob: policy identifiers *)

Section Identifiers.
Context `{Crypto}.

(** C4.  [construct_hrac_and_map_id] computes the identifiers the
    specification words: the HRAC is the 32-byte keccak digest of the
    verifying key, Bob's stamp and the label concatenated, the map id the
    hex encoding (64 digits) of the keccak digest of the verifying key and
    the HRAC concatenated; it reads nothing of Bob but his stamp, so equal
    inputs yield equal outputs. *)
Theorem construct_hrac_and_map_id_deterministic (self : Bob.t)
    (verifying_key label : bytes) :
  let hrac := Bob.spec_HRAC verifying_key (Bob.stamp self) label in
  Bob.construct_hrac_and_map_id self verifying_key label
  = (hrac, Bob.spec_MapId verifying_key hrac)
  /\ length hrac = 32%nat
  /\ String.length (Bob.spec_MapId verifying_key hrac) = 64%nat
  /\ forall (self' : Bob.t) (verifying_key' label' : bytes),
       Bob.stamp self' = Bob.stamp self ->
       verifying_key' = verifying_key ->
       label' = label ->
       Bob.construct_hrac_and_map_id self' verifying_key' label'
       = Bob.construct_hrac_and_map_id self verifying_key label.
Proof.
  intros hrac. repeat split.
  - apply keccak_digest_length.
  - unfold Bob.spec_MapId. rewrite hex_length, keccak_digest_length. reflexivity.
  - intros self' vk' label' Hstamp -> ->.
    unfold Bob.construct_hrac_and_map_id, Bob.construct_policy_hrac.
    by rewrite Hstamp.
Qed.

(** Two map ids are equal only when the digests they encode are. *)
Lemma map_id_determines_digest (vk1 hrac1 vk2 hrac2 : bytes) :
  Bob.spec_MapId vk1 hrac1 = Bob.spec_MapId vk2 hrac2 ->
  keccak_digest (vk1 ++ hrac1) = keccak_digest (vk2 ++ hrac2).
Proof. apply hex_inj. Qed.

End Identifiers.

(** ** Bob: fetching the treasure map *)

Section Fetching.
Context `{Middleware} `{Models} `{Random}.

Lemma ask_passes_over (pre rest : list Ursula) (map_id : string) :
  Forall (fun node => Bob.passed_over node map_id) pre ->
  Bob.ask_for_treasure_map (pre ++ rest) map_id
  = Bob.ask_for_treasure_map rest map_id.
Proof.
  induction 1 as [|node pre Hnode _ IH]; [done |].
  simpl. destruct Hnode as [-> | (response & -> & Hno)]; [done |].
  unfold Bob.serves in Hno. by rewrite Hno.
Qed.

Lemma ask_first_server (pre post : list Ursula) (node : Ursula)
    (map_id : string) (response : Response) :
  Forall (fun node => Bob.passed_over node map_id) pre ->
  get_treasure_map_from_node node map_id = Ok response ->
  Bob.serves response = true ->
  Bob.ask_for_treasure_map (pre ++ node :: post) map_id
  = TreasureMap_from_bytes (content response).
Proof.
  intros Hpre Hnode Hyes. rewrite ask_passes_over by done.
  simpl. rewrite Hnode. unfold Bob.serves in Hyes. by rewrite Hyes.
Qed.

(** C6.  [get_treasure_map_from_known_ursulas] asks the known nodes in a
    shuffled order (a rearrangement of them).  Passing over every node
    that seems to be down or does not answer with status 200 and content,
    it yields what decoding the content of the first node that does
    answer so yields; and when every known node is passed over it raises
    [NowhereToBeFound].  Being a function over the finite list of known
    nodes, it always comes back. *)
Theorem get_treasure_map_first_server_wins (self : Bob.t) (map_id : string) :
  let known := (map_to_list (Bob.known_nodes self)).*2 in
  let asked := shuffled known in
  Permutation asked known
  /\ (forall pre node post response,
        asked = pre ++ node :: post ->
        Forall (fun node => Bob.passed_over node map_id) pre ->
        get_treasure_map_from_node node map_id = Ok response ->
        status_code response = 200 ->
        content response <> [] ->
        Bob.get_treasure_map_from_known_ursulas self map_id
        = TreasureMap_from_bytes (content response))
  /\ (Forall (fun node => Bob.passed_over node map_id) known ->
      Bob.get_treasure_map_from_known_ursulas self map_id
      = Raise NowhereToBeFound).
Proof.
  intros known asked. split; [apply shuffled_perm |]. split.
  - intros pre node post response Hsplit Hpre Hnode Hstatus Hcontent.
    unfold Bob.get_treasure_map_from_known_ursulas. fold known. fold asked.
    rewrite Hsplit. apply ask_first_server; [done .. |].
    unfold Bob.serves. rewrite Hstatus, bool_decide_eq_false_2 by done.
    reflexivity.
  - intros Hall.
    unfold Bob.get_treasure_map_from_known_ursulas. fold known. fold asked.
    assert (Hasked : Forall (fun node => Bob.passed_over node map_id) asked).
    { unfold asked. by rewrite shuffled_perm. }
    rewrite <- (app_nil_r asked). rewrite ask_passes_over by done.
    reflexivity.
Qed.

End Fetching.

(** ** Ursula: records from the future *)

Section Future.
Context `{UrsulaCodec.Codec}.
Import UrsulaCodec.


Lemma version_splitter_cons (hi lo : byte) (payload : bytes) :
  version_splitter (hi :: lo :: payload)
  = Ok (256 * Z.of_N (Byte.to_N hi) + Z.of_N (Byte.to_N lo), payload).
Proof. reflexivity. Qed.

Lemma future_message_salvaged (version : Z) (payload : bytes) :
  (PUBLIC_ADDRESS_LENGTH <= length payload)%nat ->
  future_message version payload
  = let checksum_address :=
      to_checksum_address (take PUBLIC_ADDRESS_LENGTH payload) in
    unknown_version_message
      (display_name (nickname_from_seed checksum_address) checksum_address)
      version LEARNER_VERSION.
Proof.
  intros Hlen. unfold future_message, split_fixed.
  by rewrite (proj2 (Nat.leb_le _ _) Hlen).
Qed.

Lemma future_message_not_salvaged (version : Z) (payload : bytes) :
  (length payload < PUBLIC_ADDRESS_LENGTH)%nat ->
  future_message version payload
  = really_unknown_version_message version LEARNER_VERSION.
Proof.
  intros Hlen. unfold future_message, split_fixed.
  by rewrite (proj2 (Nat.leb_gt _ _) Hlen).
Qed.

(** C7.  For a byte string that starts with the two bytes [hi], [lo] of a
    version above [LEARNER_VERSION], [from_bytes] raises [IsFromTheFuture]
    and returns no node.  When the payload after the version holds the 20
    bytes of a canonical address, the message is [unknown_version_message]
    formatted with the display name made of the nickname and the checksum
    address of those 20 bytes; when it is shorter, the message is
    [really_unknown_version_message]. *)
Theorem from_bytes_raises_from_the_future (hi lo : byte) (payload : bytes)
    (federated_only : bool) :
  let version := 256 * Z.of_N (Byte.to_N hi) + Z.of_N (Byte.to_N lo) in
  LEARNER_VERSION < version ->
  (exists message,
     from_bytes (hi :: lo :: payload) None federated_only
     = Raise (IsFromTheFuture message))
  /\ ((PUBLIC_ADDRESS_LENGTH <= length payload)%nat ->
      let checksum_address :=
        to_checksum_address (take PUBLIC_ADDRESS_LENGTH payload) in
      let nickname := nickname_from_seed checksum_address in
      from_bytes (hi :: lo :: payload) None federated_only
      = Raise (IsFromTheFuture
          (unknown_version_message
             ("⇀" +:+ nickname +:+ "↽ (" +:+ checksum_address +:+ ")")
             version LEARNER_VERSION)))
  /\ ((length payload < PUBLIC_ADDRESS_LENGTH)%nat ->
      from_bytes (hi :: lo :: payload) None federated_only
      = Raise (IsFromTheFuture
          (really_unknown_version_message version LEARNER_VERSION))).
Proof.
  intros version Hlater.
  assert (Hraise : from_bytes (hi :: lo :: payload) None federated_only
                   = Raise (IsFromTheFuture (future_message version payload))).
  { unfold from_bytes. rewrite version_splitter_cons. simpl.
    fold version. by rewrite (proj2 (Z.ltb_lt _ _) Hlater). }
  split; [eauto |]. split; intros Hlen; rewrite Hraise.
  - by rewrite future_message_salvaged.
  - by rewrite future_message_not_salvaged.
Qed.

(** *** Batches *)






End Future.

(** C7 on a record of version 3 read by a learner of version 2: the
    address [0x41...41] is salvaged into the message. *)
Lemma from_bytes_raises_from_the_future_witness :
  @UrsulaCodec.from_bytes Fixtures.toy_codec
    (x00 :: x03 :: replicate 20 x41) None true
  = Raise (IsFromTheFuture
      "⇀Nick↽ (0x4141414141414141414141414141414141414141) purported to be of version 3, but we're only version 2.").
Proof.
  pose proof (@from_bytes_raises_from_the_future Fixtures.toy_codec
                x00 x03 (replicate 20 x41) true) as Hfuture.
  simpl in Hfuture.
  destruct (Hfuture ltac:(reflexivity)) as (_ & Hsalvaged & _).
  exact (Hsalvaged ltac:(vm_compute; lia)).
Defined.


(** ** Bob: retrieval *)

Section Retrieving.
Context `{Crypto} `{Middleware} `{Learning}.
Import Bob.

(** One turn of the loop of [retrieve], by what [reencrypt] answers. *)
Lemma collect_cfrags_cons (self : Bob.t) (message_kit : MessageKit) (m : Z)
    (work_order : WorkOrder) (rest : list WorkOrder) (log : list call) :
  collect_cfrags self message_kit m (work_order :: rest) log
  = match reencrypt work_order with
    | Raise ConnectTimeout =>
        collect_cfrags self message_kit m rest (log ++ [CallReencrypt work_order])
    | Raise e => mkRun (Raise e) self message_kit (log ++ [CallReencrypt work_order])
    | Ok [] =>
        mkRun (Raise IndexError) (recorded self work_order) message_kit
          (log ++ [CallReencrypt work_order])
    | Ok (cfrag :: _) =>
        let log' :=
          (log ++ [CallReencrypt work_order])
          ++ [CallAttachCfrag (capsule message_kit) cfrag] in
        if verify_correctness cfrag (capsule message_kit) then
          let message_kit' :=
            mkMessageKit
              (mkCapsule (components (capsule message_kit))
                 (_attached_cfrags (capsule message_kit) ++ [cfrag]))
              (ciphertext message_kit) in
          if m <=? attached message_kit'
          then mkRun (Ok tt) (recorded self work_order) message_kit' log'
          else collect_cfrags (recorded self work_order) message_kit' m rest log'
        else
          mkRun
            (Raise (IncorrectCFragReceived
               (mkEvidence (capsule message_kit) cfrag (ursula work_order))))
            (recorded self work_order) message_kit log'
    end.
Proof.
  simpl. unfold get_reencrypted_cfrags, attach_cfrag, attached.
  destruct (reencrypt work_order) as [[|cfrag cfrags]|e]; [done | | by destruct e].
  by destruct (verify_correctness cfrag (capsule message_kit)).
Qed.

(** The loop of [retrieve] runs as [collects] says, appending to the log. *)
Lemma collect_cfrags_collects (m : Z) (work_orders : list WorkOrder) :
  forall (self : Bob.t) (message_kit : MessageKit) (log : list call),
    let r := collect_cfrags self message_kit m work_orders log in
    exists new,
      calls r = log ++ new
      /\ collects m message_kit work_orders new (outcome r) (kit r).
Proof.
  induction work_orders as [|work_order rest IH]; intros self message_kit log.
  { exists []. simpl. rewrite app_nil_r. split; [done | constructor]. }
  cbv zeta. rewrite collect_cfrags_cons.
  destruct (reencrypt work_order) as [[|cfrag cfrags]|e] eqn:Hanswer.
  - eexists. split; [done | by constructor].
  - cbv zeta.
    destruct (verify_correctness cfrag (capsule message_kit)) eqn:Hverify.
    + match goal with |- context [m <=? attached ?k] =>
        set (message_kit' := k) end.
      assert (Hattach : attach_cfrag (capsule message_kit) cfrag
                        = Ok (capsule message_kit')).
      { unfold attach_cfrag. by rewrite Hverify. }
      destruct (m <=? attached message_kit') eqn:Hreached.
      * eexists. split; [by rewrite <- app_assoc |].
        eapply collects_enough; [done .. |]. by apply Z.leb_le.
      * destruct (IH (recorded self work_order) message_kit'
                    ((log ++ [CallReencrypt work_order])
                     ++ [CallAttachCfrag (capsule message_kit) cfrag]))
          as (new & -> & Hrun).
        eexists. split; [by rewrite <- !app_assoc |].
        eapply collects_more; [done .. | by apply Z.leb_gt | done].
    + eexists. split; [by rewrite <- app_assoc |]. by econstructor.
  - destruct e;
      try (eexists; split; [done | by apply collects_failure]).
    destruct (IH self message_kit (log ++ [CallReencrypt work_order]))
      as (new & -> & Hrun).
    eexists. split; [by rewrite <- app_assoc |]. by constructor.
Qed.

Lemma cons_eq_app {A} (x y : A) (l pre post : list A) :
  x :: l = pre ++ y :: post ->
  (pre = [] /\ x = y /\ l = post)
  \/ exists pre', pre = x :: pre' /\ l = pre' ++ y :: post.
Proof. destruct pre as [|z pre]; simpl; intros [= -> ->]; eauto. Qed.

Lemma attach_cfrag_ok (c c' : Capsule) (cfrag : CFrag) :
  attach_cfrag c cfrag = Ok c' ->
  verify_correctness cfrag c = true
  /\ _attached_cfrags c' = _attached_cfrags c ++ [cfrag].
Proof.
  unfold attach_cfrag. destruct (verify_correctness cfrag c); [|done].
  by intros [= <-].
Qed.

(** An [attach_cfrag] that brings the count to the threshold is the last
    call of the loop. *)
Lemma collects_ceases m message_kit work_orders log out message_kit' :
  collects m message_kit work_orders log out message_kit' ->
  forall pre c cfrag post,
    log = pre ++ CallAttachCfrag c cfrag :: post ->
    verify_correctness cfrag c = true ->
    m <= Z.of_nat (length (_attached_cfrags c)) + 1 ->
    post = [].
Proof.
  induction 1 as [mk|mk wo rest log out mk' Hanswer _ IH|mk wo rest e Hanswer He
                 |mk wo rest Hanswer|mk wo rest cf cfs Hanswer Hverify
                 |mk wo rest cf cfs c' Hanswer Hattach Hreached
                 |mk wo rest cf cfs c' log out mk' Hanswer Hattach Hbelow _ IH];
    intros pre c cfrag post Hlog Hcorrect Hthreshold.
  - by destruct pre.
  - apply cons_eq_app in Hlog as [(_ & [=] & _)|(pre' & -> & Hlog)]. eauto.
  - apply cons_eq_app in Hlog as [(_ & [=] & _)|(pre' & -> & Hlog)].
    by destruct pre'.
  - apply cons_eq_app in Hlog as [(_ & [=] & _)|(pre' & -> & Hlog)].
    by destruct pre'.
  - apply cons_eq_app in Hlog as [(_ & [=] & _)|(pre' & -> & Hlog)].
    apply cons_eq_app in Hlog as [(_ & _ & <-)|(pre'' & -> & Hlog)];
      [done | by destruct pre''].
  - apply cons_eq_app in Hlog as [(_ & [=] & _)|(pre' & -> & Hlog)].
    apply cons_eq_app in Hlog as [(_ & _ & <-)|(pre'' & -> & Hlog)];
      [done | by destruct pre''].
  - apply cons_eq_app in Hlog as [(_ & [=] & _)|(pre' & -> & Hlog)].
    apply cons_eq_app in Hlog as [(_ & [= <- <-] & <-)|(pre'' & -> & Hlog)];
      [|eauto].
    apply attach_cfrag_ok in Hattach as [_ Hgrown].
    rewrite Hgrown, length_app in Hbelow. simpl in Hbelow. lia.
Qed.

(** An [attach_cfrag] of a fragment that does not verify is the last call
    of the loop; the call before it is the [reencrypt] that returned the
    fragment, and the loop raises [IncorrectCFragReceived] with the capsule,
    the fragment and the node of that work order. *)
Lemma collects_incorrect_halts m message_kit work_orders log out message_kit' :
  collects m message_kit work_orders log out message_kit' ->
  forall pre c cfrag post,
    log = pre ++ CallAttachCfrag c cfrag :: post ->
    verify_correctness cfrag c = false ->
    post = []
    /\ c = capsule message_kit'
    /\ exists pre' work_order cfrags,
         pre = pre' ++ [CallReencrypt work_order]
         /\ work_order ∈ work_orders
         /\ reencrypt work_order = Ok (cfrag :: cfrags)
         /\ out = Raise (IncorrectCFragReceived
                           (mkEvidence c cfrag (ursula work_order))).
Proof.
  induction 1 as [mk|mk wo rest log out mk' Hanswer _ IH|mk wo rest e Hanswer He
                 |mk wo rest Hanswer|mk wo rest cf cfs Hanswer Hverify
                 |mk wo rest cf cfs c' Hanswer Hattach Hreached
                 |mk wo rest cf cfs c' log out mk' Hanswer Hattach Hbelow _ IH];
    intros pre c cfrag post Hlog Hwrong.
  - by destruct pre.
  - apply cons_eq_app in Hlog as [(_ & [=] & _)|(pre' & -> & Hlog)].
    destruct (IH _ _ _ _ Hlog Hwrong)
      as (-> & -> & pre'' & wo' & cfs & -> & Hin & Hwo' & ->).
    repeat split. exists (CallReencrypt wo :: pre''), wo', cfs.
    repeat split; [by apply list_elem_of_further | done].
  - apply cons_eq_app in Hlog as [(_ & [=] & _)|(pre' & -> & Hlog)].
    by destruct pre'.
  - apply cons_eq_app in Hlog as [(_ & [=] & _)|(pre' & -> & Hlog)].
    by destruct pre'.
  - apply cons_eq_app in Hlog as [(_ & [=] & _)|(pre' & -> & Hlog)].
    apply cons_eq_app in Hlog as [(-> & [= <- <-] & <-)|(pre'' & -> & Hlog)];
      [|by destruct pre''].
    repeat split. exists [], wo, cfs.
    repeat split; [by apply list_elem_of_here | done].
  - apply cons_eq_app in Hlog as [(_ & [=] & _)|(pre' & -> & Hlog)].
    apply cons_eq_app in Hlog as [(-> & [= <- <-] & <-)|(pre'' & -> & Hlog)];
      [|by destruct pre''].
    apply attach_cfrag_ok in Hattach as [Hverify _]. congruence.
  - apply cons_eq_app in Hlog as [(_ & [=] & _)|(pre' & -> & Hlog)].
    apply cons_eq_app in Hlog as [(-> & [= <- <-] & <-)|(pre'' & -> & Hlog)].
    { apply attach_cfrag_ok in Hattach as [Hverify _]. congruence. }
    destruct (IH _ _ _ _ Hlog Hwrong)
      as (-> & -> & pre' & wo' & cfs' & -> & Hin & Hwo' & ->).
    repeat split.
    exists (CallReencrypt wo :: CallAttachCfrag (capsule mk) cf :: pre'),
      wo', cfs'.
    repeat split; [by apply list_elem_of_further | done].
Qed.

(** The loop breaks only with the threshold reached. *)
Lemma collects_break m message_kit work_orders log message_kit' :
  collects m message_kit work_orders log (Ok tt) message_kit' ->
  m <= attached message_kit'.
Proof.
  remember (Ok tt) as out eqn:Hout.
  induction 1; try discriminate; eauto.
Qed.

(** With no call failed and fewer than [m] fragments attached in the end,
    the loop ran into its [else]. *)
Lemma collects_exhausted m message_kit work_orders log out message_kit' :
  collects m message_kit work_orders log out message_kit' ->
  Forall went_through log ->
  attached message_kit' < m ->
  out = Raise (NotEnoughUrsulas "Unable to snag m cfrags.").
Proof.
  induction 1 as [mk|mk wo rest log out mk' Hanswer _ IH|mk wo rest e Hanswer He
                 |mk wo rest Hanswer|mk wo rest cf cfs Hanswer Hverify
                 |mk wo rest cf cfs c' Hanswer Hattach Hreached
                 |mk wo rest cf cfs c' log out mk' Hanswer Hattach Hbelow _ IH];
    intros Hthrough Hfew.
  - done.
  - inversion Hthrough; subst. eauto.
  - inversion Hthrough as [|? ? Hhead _]; subst.
    destruct Hhead as [Htimeout|(cf & cfs & Hok)]; congruence.
  - inversion Hthrough as [|? ? Hhead _]; subst.
    destruct Hhead as [Htimeout|(cf & cfs & Hok)]; congruence.
  - inversion Hthrough as [|? ? _ Htail]; subst.
    inversion Htail as [|? ? Hcorrect _]; subst. simpl in Hcorrect. congruence.
  - unfold attached in Hfew. simpl in Hfew. lia.
  - inversion Hthrough as [|? ? _ Htail]; subst.
    inversion Htail; subst. eauto.
Qed.

(** *** [retrieve] *)

Lemma retrieve_work_orders_calls self message_kit data_source
    alice_verifying_key label :
  calls (retrieve_work_orders self message_kit data_source alice_verifying_key
           label) = [].
Proof.
  unfold retrieve_work_orders.
  destruct (set_correctness_keys _ _ _ _) as [c|e]; [|done]. simpl.
  destruct (follow_treasure_map _ _ _ _ _ _) as [[[[unknown known] m']|e] self'];
    [|done].
  by destruct (generate_work_orders _ _ _ _) as [[work_orders|e] self''].
Qed.

(** The threshold [retrieve] works with is that of the map Bob holds under
    the map id of the policy. *)
Lemma retrieve_work_orders_threshold self message_kit data_source
    alice_verifying_key label threshold work_orders :
  outcome (retrieve_work_orders self message_kit data_source
             alice_verifying_key label) = Ok (threshold, work_orders) ->
  exists tm,
    treasure_maps self
      !! (construct_hrac_and_map_id self alice_verifying_key label).2 = Some tm
    /\ threshold = m tm.
Proof.
  unfold retrieve_work_orders.
  destruct (set_correctness_keys _ _ _ _) as [c|e]; [|done]. simpl.
  set (map_id := hex _).
  unfold follow_treasure_map, _pick_treasure_map.
  destruct (str_truthy map_id); [|done].
  destruct (treasure_maps self !! map_id) as [tm|]; [|done].
  destruct (peek_at_treasure_map self (Some tm) None) as [[unknown known]|e];
    [|done].
  destruct (block_until_specific_nodes_are_known _ _ _ _) as [[waited|e] known'];
    [|done].
  destruct (generate_work_orders _ _ _ _) as [[generated|e] self''];
    [|done].
  simpl. intros [= <- _]. eauto.
Qed.

(** [retrieve] after its work orders are made: the loop, then the
    decryption. *)
Lemma retrieve_collects self message_kit data_source alice_verifying_key
    label threshold work_orders :
  outcome (retrieve_work_orders self message_kit data_source
             alice_verifying_key label) = Ok (threshold, work_orders) ->
  let r := retrieve self message_kit data_source alice_verifying_key label in
  exists start out,
    collects threshold start work_orders (calls r) out (kit r)
    /\ (forall e, out = Raise e -> outcome r = Raise e)
    /\ (is_ok (outcome r) = true -> out = Ok tt).
Proof.
  intros Hprepared r. unfold r, retrieve. rewrite Hprepared.
  set (prepared := retrieve_work_orders _ _ _ _ _).
  assert (Hnil : calls prepared = []) by apply retrieve_work_orders_calls.
  pose proof (collect_cfrags_collects threshold work_orders (bob prepared)
                (kit prepared) (calls prepared)) as Hrun.
  cbv zeta in Hrun.
  remember (collect_cfrags (bob prepared) (kit prepared) threshold work_orders
              (calls prepared)) as collected eqn:Hcollected.
  destruct Hrun as (new & Hcalls & Hrun).
  rewrite Hnil in Hcalls. simpl in Hcalls. rewrite <- Hcalls in Hrun.
  exists (kit prepared), (outcome collected).
  destruct (outcome collected) as [[]|e] eqn:Hout.
  - by destruct (verify_from data_source (kit collected)).
  - simpl. split; [done |]. split; [by intros e' [= <-] | done].
Qed.

(** C2.  Let [retrieve] have made its work orders for a map of threshold
    [m].  An [attach_cfrag] that verifies and brings the number of attached
    fragments to [m] or more is the last call [retrieve] makes: no
    [reencrypt] follows it.  [retrieve] returns only with [m] fragments
    attached.  And when the work orders are exhausted, each dispatched and
    none ending the loop by an exception, with fewer than [m] fragments
    attached, [retrieve] raises [NotEnoughUrsulas]. *)
Theorem retrieve_ceases_at_threshold (self : Bob.t) (message_kit : MessageKit)
    (data_source : DataSource) (alice_verifying_key label : bytes)
    (threshold : Z) (work_orders : list WorkOrder) :
  outcome (retrieve_work_orders self message_kit data_source
             alice_verifying_key label) = Ok (threshold, work_orders) ->
  let r := retrieve self message_kit data_source alice_verifying_key label in
  (exists tm,
     treasure_maps self
       !! (construct_hrac_and_map_id self alice_verifying_key label).2
     = Some tm
     /\ threshold = m tm)
  /\ (forall pre c cfrag post,
        calls r = pre ++ CallAttachCfrag c cfrag :: post ->
        verify_correctness cfrag c = true ->
        threshold <= Z.of_nat (length (_attached_cfrags c)) + 1 ->
        post = [])
  /\ (is_ok (outcome r) = true -> threshold <= attached (kit r))
  /\ (exhausted (calls r) work_orders ->
      attached (kit r) < threshold ->
      outcome r = Raise (NotEnoughUrsulas "Unable to snag m cfrags.")).
Proof.
  intros Hprepared r.
  destruct (retrieve_collects _ _ _ _ _ _ _ Hprepared)
    as (start & out & Hrun & Hraise & Hok).
  fold r in Hrun, Hraise, Hok.
  split; [by eapply retrieve_work_orders_threshold |].
  split; [by eapply collects_ceases |].
  split.
  - intros Hreturned. rewrite (Hok Hreturned) in Hrun.
    by eapply collects_break.
  - intros [_ Hthrough] Hfew. apply Hraise.
    by eapply collects_exhausted.
Qed.

(** C3.  In a run of [retrieve], an [attach_cfrag] of a fragment that fails
    its correctness check is the last call made, so no further work order
    is dispatched; the call before it is the [reencrypt] of the work order
    that returned the fragment, and [retrieve] raises
    [IncorrectCFragReceived] with the evidence made of the capsule of the
    message kit, that fragment and the node of that work order. *)
Theorem retrieve_incorrect_cfrag_halts (self : Bob.t)
    (message_kit : MessageKit) (data_source : DataSource)
    (alice_verifying_key label : bytes) :
  let r := retrieve self message_kit data_source alice_verifying_key label in
  forall pre c cfrag post,
    calls r = pre ++ CallAttachCfrag c cfrag :: post ->
    verify_correctness cfrag c = false ->
    post = []
    /\ c = capsule (kit r)
    /\ exists pre' work_order cfrags,
         pre = pre' ++ [CallReencrypt work_order]
         /\ reencrypt work_order = Ok (cfrag :: cfrags)
         /\ outcome r
            = Raise (IncorrectCFragReceived
                       (collect_evidence c cfrag (ursula work_order)))
         /\ evidence_capsule (collect_evidence c cfrag (ursula work_order)) = c
         /\ evidence_cfrag (collect_evidence c cfrag (ursula work_order)) = cfrag
         /\ evidence_ursula (collect_evidence c cfrag (ursula work_order))
            = ursula work_order.
Proof.
  intros r pre c cfrag post Hcalls Hwrong.
  destruct (outcome (retrieve_work_orders self message_kit data_source
                       alice_verifying_key label))
    as [[threshold work_orders]|e] eqn:Hprepared.
  - destruct (retrieve_collects _ _ _ _ _ _ _ Hprepared)
      as (start & out & Hrun & Hraise & _).
    fold r in Hrun, Hraise.
    destruct (collects_incorrect_halts _ _ _ _ _ _ Hrun _ _ _ _ Hcalls Hwrong)
      as (-> & -> & pre' & wo & cfs & -> & _ & Hanswer & ->).
    repeat split. exists pre', wo, cfs. repeat split; [done |].
    by apply Hraise.
  - exfalso. unfold r, retrieve in Hcalls. rewrite Hprepared in Hcalls.
    simpl in Hcalls. rewrite retrieve_work_orders_calls in Hcalls.
    by destruct pre.
Qed.

End Retrieving.

(** C2 on the five nodes.  With threshold 2 and the destinations [0xB],
    [0xA], [0xD], [0xE]: the first times out, the fragments of the next two
    reach the threshold, and the last is not asked.  With threshold 2 and
    the destinations [0xB], [0xA]: one fragment is attached, the work
    orders are exhausted and [NotEnoughUrsulas] is raised. *)
Lemma retrieve_ceases_at_threshold_witness :
  let enough :=
    @Bob.retrieve Fixtures.toy_crypto Fixtures.toy_middleware
      Fixtures.no_learning
      (Fixtures.bob_retrieving 2 ["0xB"; "0xA"; "0xD"; "0xE"]%string)
      Fixtures.kit_one Fixtures.enrico [] [] in
  let short :=
    @Bob.retrieve Fixtures.toy_crypto Fixtures.toy_middleware
      Fixtures.no_learning
      (Fixtures.bob_retrieving 2 ["0xB"; "0xA"]%string)
      Fixtures.kit_one Fixtures.enrico [] [] in
  Bob.dispatched (Bob.calls enough)
  = [Fixtures.order_for "0xB"; Fixtures.order_for "0xA"; Fixtures.order_for "0xD"]
  /\ Bob.outcome enough = Ok [[x42]]
  /\ 2 <= @Bob.attached (Bob.kit enough)
  /\ Bob.outcome short = Raise (NotEnoughUrsulas "Unable to snag m cfrags.").
Proof.
  intros enough short.
  split; [reflexivity |]. split; [reflexivity |]. split.
  - apply (@retrieve_ceases_at_threshold Fixtures.toy_crypto
             Fixtures.toy_middleware Fixtures.no_learning
             (Fixtures.bob_retrieving 2 ["0xB"; "0xA"; "0xD"; "0xE"]%string)
             Fixtures.kit_one Fixtures.enrico [] [] 2
             (map Fixtures.order_for ["0xB"; "0xA"; "0xD"; "0xE"]%string)
             eq_refl).
    reflexivity.
  - apply (@retrieve_ceases_at_threshold Fixtures.toy_crypto
             Fixtures.toy_middleware Fixtures.no_learning
             (Fixtures.bob_retrieving 2 ["0xB"; "0xA"]%string)
             Fixtures.kit_one Fixtures.enrico [] [] 2
             (map Fixtures.order_for ["0xB"; "0xA"]%string)
             eq_refl).
    + split; [reflexivity |].
      apply List.Forall_cons; [by left |].
      apply List.Forall_cons; [right; by exists [xaa], [] |].
      apply List.Forall_cons; [reflexivity | apply List.Forall_nil].
    + reflexivity.
Defined.

(** C3 on the five nodes, with threshold 3 and the destinations [0xA],
    [0xC], [0xD]: the fragment of [0xC] does not verify, [0xD] is not
    asked, and the evidence names the capsule, the fragment and [0xC]. *)
Lemma retrieve_incorrect_cfrag_halts_witness :
  let r :=
    @Bob.retrieve Fixtures.toy_crypto Fixtures.toy_middleware
      Fixtures.no_learning
      (Fixtures.bob_retrieving 3 ["0xA"; "0xC"; "0xD"]%string)
      Fixtures.kit_one Fixtures.enrico [] [] in
  Bob.dispatched (Bob.calls r)
  = [Fixtures.order_for "0xA"; Fixtures.order_for "0xC"]
  /\ Bob.outcome r
     = Raise (IncorrectCFragReceived
                (mkEvidence (mkCapsule [x01] [[xaa]]) []
                   (Fixtures.ursula_at "0xC"))).
Proof.
  intros r. split; [reflexivity |].
  destruct (@retrieve_incorrect_cfrag_halts Fixtures.toy_crypto
              Fixtures.toy_middleware Fixtures.no_learning
              (Fixtures.bob_retrieving 3 ["0xA"; "0xC"; "0xD"]%string)
              Fixtures.kit_one Fixtures.enrico [] []
              [Bob.CallReencrypt (Fixtures.order_for "0xA");
               Bob.CallAttachCfrag Fixtures.capsule_one [xaa];
               Bob.CallReencrypt (Fixtures.order_for "0xC")]
              (mkCapsule [x01] [[xaa]]) [] [] eq_refl eq_refl)
    as (_ & _ & pre' & work_order & cfrags & Hpre & _ & Hraised & _).
  change [Bob.CallReencrypt (Fixtures.order_for "0xA");
          Bob.CallAttachCfrag Fixtures.capsule_one [xaa];
          Bob.CallReencrypt (Fixtures.order_for "0xC")]
    with ([Bob.CallReencrypt (Fixtures.order_for "0xA");
           Bob.CallAttachCfrag Fixtures.capsule_one [xaa]]
          ++ [Bob.CallReencrypt (Fixtures.order_for "0xC")]) in Hpre.
  apply app_inj_tail in Hpre as [_ [= <-]]. exact Hraised.
Defined.

(** ** Alice: revocation *)


Section Revoking.
Context `{Models} `{Middleware} `{Random} `{Learning}.
Import Alice.

Lemma revoke_loop_calls (policy : Policy) (addresses : list string) :
  forall (self : Alice.t) failed_revocations (log : list Alice.call),
    let r := revoke_loop self policy addresses failed_revocations log in
    alice r = self
    /\ exists revocations,
         calls r = log ++ revocations /\ Forall is_revocation revocations.
Proof.
  induction addresses as [|node_id rest IH]; intros self failed log; simpl.
  { split; [done |]. exists []. by rewrite app_nil_r. }
  destruct (known_nodes self !! node_id) as [node|]; simpl;
    [|split; [done |]; exists []; by rewrite app_nil_r].
  destruct (revocation_kit policy !! node_id) as [revocation|]; simpl;
    [|split; [done |]; exists []; by rewrite app_nil_r].
  assert (Hone : Forall is_revocation [CallRevokeArrangement node revocation])
    by by repeat constructor.
  assert (Hgoes_on : forall failed',
    let r := revoke_loop self policy rest failed'
               (log ++ [CallRevokeArrangement node revocation]) in
    alice r = self
    /\ exists revocations,
         calls r = log ++ revocations /\ Forall is_revocation revocations).
  { intros failed'. destruct (IH self failed'
      (log ++ [CallRevokeArrangement node revocation]))
      as (Hself & revocations & Hcalls & Hall).
    split; [done |].
    exists (CallRevokeArrangement node revocation :: revocations).
    split; [by rewrite Hcalls, <- app_assoc | by constructor]. }
  destruct (revoke_arrangement node revocation) as [response|e];
    [apply Hgoes_on |].
  destruct e; try apply Hgoes_on;
    (split; [done |];
     exists [CallRevokeArrangement node revocation]; by split).
Qed.


End Revoking.


(** ** Alice: granting in federated mode *)

Lemma bind_Ok {E A B} (c : result E A) (k : A -> result E B) (v : B) :
  c ≫= k = Ok v -> exists a, c = Ok a /\ k a = Ok v.
Proof. destruct c as [a|e]; [eauto | done]. Qed.

Section Granting.
Context `{Models} `{Middleware} `{Random} `{Learning}.
Import Alice.




End Granting.



(** X1 on the Bob who holds the map with the destination [0xA]: the first call issues a work order to [0xA], a
    second call right after it issues none. *)
Lemma generate_work_orders_single_capsule_once_witness :
  let first :=
    Bob.generate_work_orders Fixtures.bob_with_map "aa" [Fixtures.capsule_one]
      None in
  let second :=
    Bob.generate_work_orders first.2 "aa" [Fixtures.capsule_one] None in
  first.1
  = Ok [("0xA"%string,
         mkWorkOrder [x01] [Fixtures.capsule_one] (Fixtures.ursula_at "0xA")
           [x0b])]
  /\ second.1 = Ok []
  /\ "0xA"%string ∉ ([] : list (string * WorkOrder)).*1.
Proof.
  intros first second. split; [reflexivity |]. split; [reflexivity |].
  apply (generate_work_orders_single_capsule_once Fixtures.bob_with_map
           first.2 first.2 second.2 "aa" "aa" Fixtures.capsule_one None None
           [("0xA"%string,
             mkWorkOrder [x01] [Fixtures.capsule_one] (Fixtures.ursula_at "0xA")
               [x0b])]
           [] eq_refl (fun _ Hin => Hin) eq_refl "0xA"%string).
  apply list_elem_of_here.
Defined.

(* ===================================================================== *)
(** * Part III. Further properties of the code                           *)
(* ===================================================================== *)

(** ** Bob: peeking at a treasure map *)

(** X2.  When [peek_at_treasure_map] returns, the two sets it returns split
    the destinations of the chosen map: together they are its node ids,
    they share none, the known ones are all nodes Bob knows and the unknown
    ones are none of them. *)
Theorem peek_at_treasure_map_partitions (self : Bob.t)
    (treasure_map : option TreasureMap) (map_id : option string)
    (unknown known : gset string) :
  Bob.peek_at_treasure_map self treasure_map map_id = Ok (unknown, known) ->
  exists tm,
    Bob._pick_treasure_map self treasure_map map_id = Ok tm
    /\ unknown ∪ known = list_to_set (destinations tm).*1
    /\ unknown ## known
    /\ known ⊆ dom (Bob.known_nodes self)
    /\ unknown ## dom (Bob.known_nodes self).
Proof.
  unfold Bob.peek_at_treasure_map.
  destruct (Bob._pick_treasure_map self treasure_map map_id) as [tm|e];
    [|done].
  simpl. intros [= <- <-]. exists tm. split; [done |].
  set (keys := list_to_set (destinations tm).*1 : gset string).
  set (nodes := dom (Bob.known_nodes self)).
  repeat split.
  - apply set_eq. intros x.
    rewrite elem_of_union, elem_of_difference, elem_of_intersection.
    destruct (decide (x ∈ nodes)); tauto.
  - intros x [_ Hout]%elem_of_difference [_ Hin]%elem_of_intersection. done.
  - intros x [_ Hin]%elem_of_intersection. done.
  - intros x [_ Hout]%elem_of_difference Hin. done.
Qed.

(** ** Bob: the work orders generated *)

Lemma odict_set_elem {V} (d : list (string * V)) (k k' : string) (v v' : V) :
  (k', v') ∈ odict_set d k v -> (k', v') = (k, v) \/ (k', v') ∈ d.
Proof.
  induction d as [|[k0 v0] d IH]; simpl.
  - rewrite list_elem_of_singleton. auto.
  - destruct (decide (k0 = k)) as [->|Hk]; rewrite !elem_of_cons; [tauto |].
    intros [?|?%IH]; tauto.
Qed.

Lemma odict_set_length {V} (d : list (string * V)) (k : string) (v : V) :
  (length d <= length (odict_set d k v) <= S (length d))%nat.
Proof.
  induction d as [|[k0 v0] d IH]; simpl; [lia |].
  destruct (decide (k0 = k)); simpl; lia.
Qed.

Lemma odict_set_NoDup {V} (d : list (string * V)) (k : string) (v : V) :
  NoDup d.*1 -> NoDup (odict_set d k v).*1.
Proof.
  induction d as [|[k0 v0] d IH]; simpl.
  - intros _. apply NoDup_singleton.
  - rewrite NoDup_cons. intros [Hfresh Hrest].
    destruct (decide (k0 = k)) as [->|Hk]; simpl; rewrite NoDup_cons.
    + done.
    + split; [|auto]. rewrite odict_set_keys. intros [?|?]; done.
Qed.

Lemma history_kept_refl (self : Bob.t) : Bob.history_kept self self.
Proof. by intros node_id c. Qed.

Lemma history_kept_trans (self1 self2 self3 : Bob.t) :
  Bob.history_kept self1 self2 -> Bob.history_kept self2 self3 ->
  Bob.history_kept self1 self3.
Proof. intros H12 H23 node_id c Hin. by apply H23, H12. Qed.

Lemma history_kept_save (self : Bob.t) (node_id : string) (c : Capsule)
    (work_order : WorkOrder) :
  Bob.history_kept self (Bob.save_work_order self node_id c work_order).
Proof. intros node_id' c' Hin. apply in_history_save. by right. Qed.

Lemma generate_work_orders_loop_cons (self : Bob.t) (asked : list Capsule)
    (num_ursulas : option Z) (node_id : string) (arrangement : bytes)
    (dests : list (string * bytes)) (generated : list (string * WorkOrder)) :
  Bob.generate_work_orders_loop self asked num_ursulas
    ((node_id, arrangement) :: dests) generated
  = match Bob.known_nodes self !! node_id with
    | None => (Raise (KeyError node_id), self)
    | Some node =>
        let after := Bob.turn self asked node_id arrangement node generated in
        if bool_decide (num_ursulas = Some (Z.of_nat (length after.1)))
        then (Ok after.1, after.2)
        else Bob.generate_work_orders_loop after.2 asked num_ursulas dests
               after.1
    end.
Proof.
  simpl. destruct (Bob.known_nodes self !! node_id) as [node|]; [|done].
  unfold Bob.turn.
  destruct (List.filter _ asked) as [|c0 included]; [done |].
  by destruct (last asked).
Qed.

(** One turn leaves the maps and the known nodes alone, keeps the history,
    adds at most one entry, and an entry it writes is the work order for
    this node: its asked are those asked for that were not in the
    node's history. *)
Lemma turn_facts (self : Bob.t) (asked : list Capsule) (node_id : string)
    (arrangement : bytes) (node : Ursula)
    (generated : list (string * WorkOrder)) :
  let after := Bob.turn self asked node_id arrangement node generated in
  Bob.treasure_maps after.2 = Bob.treasure_maps self
  /\ Bob.known_nodes after.2 = Bob.known_nodes self
  /\ Bob.stamp after.2 = Bob.stamp self
  /\ Bob.history_kept self after.2
  /\ (length generated <= length after.1 <= S (length generated))%nat
  /\ (NoDup generated.*1 -> NoDup after.1.*1)
  /\ (forall node_id' work_order,
        (node_id', work_order) ∈ after.1 ->
        (node_id', work_order) ∈ generated
        \/ (node_id' = node_id
            /\ work_order
               = mkWorkOrder arrangement
                   (List.filter
                      (fun c => negb (Bob.in_history self node_id c)) asked)
                   node (Bob.stamp self)
            /\ capsules work_order <> [])).
Proof.
  unfold Bob.turn.
  destruct (List.filter _ asked) as [|c0 included] eqn:Hincluded; simpl.
  { repeat split; auto using history_kept_refl; lia. }
  destruct (last asked) as [c|]; simpl.
  - repeat split; auto using history_kept_save, odict_set_NoDup;
      try apply odict_set_length.
    intros node_id' work_order [[= -> ->]|?]%odict_set_elem; auto.
  - repeat split; auto using history_kept_refl; lia.
Qed.

(** The loop of [generate_work_orders], whatever it returns or raises:
    the maps, the known nodes and the stamp are as before, and nothing is
    taken out of the history. *)
Lemma generate_work_orders_loop_keeps (asked : list Capsule)
    (num_ursulas : option Z) (dests : list (string * bytes)) :
  forall (self self' : Bob.t) generated r,
    Bob.generate_work_orders_loop self asked num_ursulas dests generated
    = (r, self') ->
    Bob.treasure_maps self' = Bob.treasure_maps self
    /\ Bob.known_nodes self' = Bob.known_nodes self
    /\ Bob.stamp self' = Bob.stamp self
    /\ Bob.history_kept self self'.
Proof.
  induction dests as [|[node_id arrangement] dests IH];
    intros self self' generated r.
  { simpl. intros [= <- <-]. auto using history_kept_refl. }
  rewrite generate_work_orders_loop_cons.
  destruct (Bob.known_nodes self !! node_id) as [node|];
    [|intros [= <- <-]; auto using history_kept_refl].
  cbv zeta.
  pose proof (turn_facts self asked node_id arrangement node generated)
    as (Hmaps & Hnodes & Hstamp & Hkept & _).
  destruct (bool_decide _).
  - intros [= <- <-]. auto.
  - intros (Hmaps' & Hnodes' & Hstamp' & Hkept')%IH.
    rewrite Hmaps', Hnodes', Hstamp'.
    eauto using history_kept_trans.
Qed.

(** The work orders the loop adds: each is for a destination still to
    visit, addressed to the known node of that id under the arrangement of
    the destination, and holds asked asked for that were not in the
    node's history. *)
Lemma generate_work_orders_loop_orders (asked : list Capsule)
    (num_ursulas : option Z) (dests : list (string * bytes)) :
  forall (self self' : Bob.t) generated generated',
    Bob.generate_work_orders_loop self asked num_ursulas dests generated
    = (Ok generated', self') ->
    (NoDup generated.*1 -> NoDup generated'.*1)
    /\ (length generated' <= length generated + length dests)%nat
    /\ forall node_id work_order,
         (node_id, work_order) ∈ generated' ->
         (node_id, work_order) ∈ generated
         \/ ((node_id, arrangement_id work_order) ∈ dests
             /\ Bob.known_nodes self !! node_id = Some (ursula work_order)
             /\ bob_stamp work_order = Bob.stamp self
             /\ capsules work_order <> []
             /\ forall c, c ∈ capsules work_order ->
                  c ∈ asked /\ Bob.in_history self node_id c = false).
Proof.
  induction dests as [|[node_id arrangement] dests IH];
    intros self self' generated generated'.
  { simpl. intros [= <- <-]. split; [done |]. split; [lia | auto]. }
  rewrite generate_work_orders_loop_cons.
  destruct (Bob.known_nodes self !! node_id) as [node|] eqn:Hnode; [|done].
  cbv zeta.
  pose proof (turn_facts self asked node_id arrangement node generated)
    as (Hmaps & Hnodes & Hstamp & Hkept & Hlength & Hnodup & Hturn).
  assert (Hnew : forall node_id' work_order,
    (node_id', work_order)
      ∈ (Bob.turn self asked node_id arrangement node generated).1 ->
    (node_id', work_order) ∈ generated
    \/ ((node_id', arrangement_id work_order) ∈ (node_id, arrangement) :: dests
        /\ Bob.known_nodes self !! node_id' = Some (ursula work_order)
        /\ bob_stamp work_order = Bob.stamp self
        /\ capsules work_order <> []
        /\ forall c, c ∈ capsules work_order ->
             c ∈ asked /\ Bob.in_history self node_id' c = false)).
  { intros node_id' work_order [Hold|(-> & -> & Hsome)]%Hturn; [by left |].
    right. simpl. split; [apply list_elem_of_here |].
    split; [done |]. split; [done |]. split; [done |].
    intros c [Hc Hfresh]%list_elem_of_In%filter_In.
    split; [by apply list_elem_of_In |].
    by destruct (Bob.in_history self node_id c). }
  destruct (bool_decide _).
  - intros [= <- <-]. split; [done |]. split; [simpl; lia | done].
  - intros (Hnodup' & Hlength' & Hrest)%IH.
    split; [auto |]. split; [simpl; lia |].
    intros node_id' work_order [Hturned|Hlater]%Hrest; [auto |].
    right. destruct Hlater as (Hdest & Hknown & Hstamp' & Hsome & Hfresh).
    split; [by apply list_elem_of_further |].
    split; [by rewrite <- Hnodes |]. split; [by rewrite <- Hstamp |].
    split; [done |].
    intros c [Hc Hnot]%Hfresh. split; [done |].
    destruct (Bob.in_history self node_id' c) eqn:Hbefore; [|done].
    apply Hkept in Hbefore. congruence.
Qed.

Lemma generate_work_orders_loop_bound (asked : list Capsule) (k : Z)
    (dests : list (string * bytes)) :
  forall (self self' : Bob.t) generated generated',
    Bob.generate_work_orders_loop self asked (Some k) dests generated
    = (Ok generated', self') ->
    Z.of_nat (length generated) < k ->
    Z.of_nat (length generated') <= k.
Proof.
  induction dests as [|[node_id arrangement] dests IH];
    intros self self' generated generated'.
  { simpl. intros [= <- <-]. lia. }
  rewrite generate_work_orders_loop_cons.
  destruct (Bob.known_nodes self !! node_id) as [node|]; [|done].
  cbv zeta.
  pose proof (turn_facts self asked node_id arrangement node generated)
    as (_ & _ & _ & _ & Hlength & _).
  destruct (bool_decide _) eqn:Hreached.
  - intros [= <- <-] Hbelow. lia.
  - intros Hrest Hbelow. apply (IH _ _ _ _ Hrest).
    apply bool_decide_eq_false in Hreached.
    assert (Z.of_nat (length
              (Bob.turn self asked node_id arrangement node generated).1) <> k)
      by congruence.
    lia.
Qed.

(** What the work orders that [generate_work_orders] returned are. *)
Lemma generate_work_orders_inv (self self' : Bob.t) (map_id : string)
    (asked : list Capsule) (num_ursulas : option Z)
    (generated : list (string * WorkOrder)) :
  Bob.generate_work_orders self map_id asked num_ursulas
  = (Ok generated, self') ->
  exists tm,
    Bob.treasure_maps self !! map_id = Some tm
    /\ NoDup generated.*1
    /\ forall node_id work_order,
         (node_id, work_order) ∈ generated ->
         (node_id, arrangement_id work_order) ∈ destinations tm
         /\ Bob.known_nodes self !! node_id = Some (ursula work_order)
         /\ bob_stamp work_order = Bob.stamp self
         /\ capsules work_order <> []
         /\ forall c, c ∈ capsules work_order ->
              c ∈ asked /\ Bob.in_history self node_id c = false.
Proof.
  unfold Bob.generate_work_orders.
  destruct (Bob.treasure_maps self !! map_id) as [tm|]; [|done].
  destruct (Bob.treasure_map_truthy tm); [|done]. simpl.
  intros (Hnodup & _ & Horders)%generate_work_orders_loop_orders.
  exists tm. split; [done |]. split; [apply Hnodup, NoDup_nil_2 |].
  intros node_id work_order [Hnil|Hnew]%Horders;
    [by apply not_elem_of_nil in Hnil | done].
Qed.

(** X3.  The work orders [generate_work_orders] returns are one per node
    id.  Each is for a destination of Bob's map, under the arrangement of
    that destination, addressed to the node Bob knows by that id and signed
    with Bob's stamp; it holds at least one capsule, and every capsule it
    holds was asked for and was not in the history of that node. *)
Theorem generate_work_orders_orders (self self' : Bob.t) (map_id : string)
    (asked : list Capsule) (num_ursulas : option Z)
    (generated : list (string * WorkOrder)) :
  Bob.generate_work_orders self map_id asked num_ursulas
  = (Ok generated, self') ->
  exists tm,
    Bob.treasure_maps self !! map_id = Some tm
    /\ NoDup generated.*1
    /\ forall node_id work_order,
         (node_id, work_order) ∈ generated ->
         (node_id, arrangement_id work_order) ∈ destinations tm
         /\ Bob.known_nodes self !! node_id = Some (ursula work_order)
         /\ bob_stamp work_order = Bob.stamp self
         /\ capsules work_order <> []
         /\ forall c, c ∈ capsules work_order ->
              c ∈ asked /\ Bob.in_history self node_id c = false.
Proof. apply generate_work_orders_inv. Qed.

(** X4.  [generate_work_orders] never returns more work orders than the
    map has destinations, and with [num_ursulas] at least 1 never more than
    [num_ursulas]. *)
Theorem generate_work_orders_at_most (self self' : Bob.t) (map_id : string)
    (asked : list Capsule) (num_ursulas : option Z)
    (generated : list (string * WorkOrder)) :
  Bob.generate_work_orders self map_id asked num_ursulas
  = (Ok generated, self') ->
  (exists tm,
     Bob.treasure_maps self !! map_id = Some tm
     /\ (length generated <= length (destinations tm))%nat)
  /\ forall k, num_ursulas = Some k -> 1 <= k ->
               Z.of_nat (length generated) <= k.
Proof.
  unfold Bob.generate_work_orders.
  destruct (Bob.treasure_maps self !! map_id) as [tm|]; [|done].
  destruct (Bob.treasure_map_truthy tm); [|done]. simpl.
  intros Hloop. split.
  - exists tm. split; [done |].
    by apply generate_work_orders_loop_orders in Hloop as (_ & Hlength & _).
  - intros k -> Hk.
    apply (generate_work_orders_loop_bound _ _ _ _ _ _ _ Hloop). simpl. lia.
Qed.

(** What [generate_work_orders] leaves of Bob. *)
Lemma generate_work_orders_bob_keeps (self self' : Bob.t) (map_id : string)
    (asked : list Capsule) (num_ursulas : option Z)
    (r : res (list (string * WorkOrder))) :
  Bob.generate_work_orders self map_id asked num_ursulas = (r, self') ->
  Bob.treasure_maps self' = Bob.treasure_maps self
  /\ Bob.known_nodes self' = Bob.known_nodes self
  /\ Bob.stamp self' = Bob.stamp self
  /\ Bob.history_kept self self'.
Proof.
  unfold Bob.generate_work_orders.
  destruct (Bob.treasure_maps self !! map_id) as [tm|];
    [|intros [= <- <-]; auto using history_kept_refl].
  destruct (Bob.treasure_map_truthy tm); simpl;
    [|intros [= <- <-]; auto using history_kept_refl].
  apply generate_work_orders_loop_keeps.
Qed.


(** *** Recorded responses *)

Lemma in_history_components (self : Bob.t) (node_id : string) (c c' : Capsule) :
  components c = components c' ->
  Bob.in_history self node_id c = Bob.in_history self node_id c'.
Proof. unfold Bob.in_history. by intros ->. Qed.

Lemma recorded_keeps (self : Bob.t) (work_order : WorkOrder) :
  Bob.treasure_maps (Bob.recorded self work_order) = Bob.treasure_maps self
  /\ Bob.known_nodes (Bob.recorded self work_order) = Bob.known_nodes self
  /\ Bob.stamp (Bob.recorded self work_order) = Bob.stamp self
  /\ Bob.history_kept self (Bob.recorded self work_order)
  /\ forall c, c ∈ capsules work_order ->
       Bob.in_history (Bob.recorded self work_order)
         (checksum_public_address (ursula work_order)) c = true.
Proof.
  unfold Bob.recorded.
  generalize (checksum_public_address (ursula work_order)) as address.
  intros address. revert self.
  induction (capsules work_order) as [|c0 cs IH]; intros self; simpl.
  { repeat split; auto using history_kept_refl.
    intros c Hc. by apply not_elem_of_nil in Hc. }
  destruct (IH (Bob.save_work_order self address c0 work_order))
    as (Hmaps & Hnodes & Hstamp & Hkept & Hall).
  repeat split; [by rewrite Hmaps | by rewrite Hnodes | by rewrite Hstamp | |].
  - eapply history_kept_trans; [apply history_kept_save | exact Hkept].
  - intros c [->|Hc]%elem_of_cons; [|auto].
    apply Hkept, in_history_save. by left.
Qed.

(** X6.  Once [get_reencrypted_cfrags] has returned for a work order, every
    capsule of that work order is in the history of its node, so no later
    [generate_work_orders] puts any of them in a work order for that node,
    however many capsules are asked for at a time. *)
Theorem recorded_response_is_not_reissued `{Middleware}
    (self self1 later self2 : Bob.t) (work_order : WorkOrder)
    (cfrags : list CFrag) (map_id : string) (asked : list Capsule)
    (num_ursulas : option Z) (generated : list (string * WorkOrder)) :
  Bob.get_reencrypted_cfrags self work_order = (Ok cfrags, self1) ->
  Bob.history_kept self1 later ->
  Bob.generate_work_orders later map_id asked num_ursulas
  = (Ok generated, self2) ->
  forall work_order',
    (checksum_public_address (ursula work_order), work_order') ∈ generated ->
    forall c c', c ∈ capsules work_order -> c' ∈ capsules work_order' ->
                 components c' <> components c.
Proof.
  unfold Bob.get_reencrypted_cfrags.
  destruct (reencrypt work_order) as [answer|e]; [|done].
  intros [= _ <-] Hkept Hgenerated work_order' Hin c c' Hc Hc' Hsame.
  apply generate_work_orders_inv in Hgenerated as (tm & _ & _ & Horders).
  destruct (Horders _ _ Hin) as (_ & _ & _ & _ & Hfresh).
  destruct (Hfresh _ Hc') as [_ Hnot].
  rewrite (in_history_components _ _ _ _ Hsame) in Hnot.
  destruct (recorded_keeps self work_order) as (_ & _ & _ & _ & Hrecorded).
  apply Hrecorded, Hkept in Hc. congruence.
Qed.

(** *** Unknown destinations *)




(** ** Bob: more on retrieval *)

Section RetrievingMore.
Context `{Crypto} `{Middleware} `{Learning}.
Import Bob.

Lemma follow_treasure_map_keeps (self self' : Bob.t)
    (treasure_map : option TreasureMap) (map_id : option string)
    (block : bool) (timeout allow_missing : Z)
    (r : res (gset string * gset string * Z)) :
  follow_treasure_map self treasure_map map_id block timeout allow_missing
  = (r, self') ->
  treasure_maps self' = treasure_maps self
  /\ stamp self' = stamp self
  /\ _saved_work_orders self' = _saved_work_orders self.
Proof.
  unfold follow_treasure_map.
  destruct (_pick_treasure_map self treasure_map map_id) as [tm|e];
    [|by intros [= <- <-]].
  destruct (peek_at_treasure_map self (Some tm) None) as [[unknown known]|e];
    [|by intros [= <- <-]].
  destruct (decide (unknown = ∅)); destruct block;
    repeat case_match; by intros [= <- <-].
Qed.

(** What [retrieve] has done when it comes to its loop. *)
Lemma retrieve_work_orders_inv (self : Bob.t) (message_kit : MessageKit)
    (data_source : DataSource) (alice_verifying_key label : bytes)
    (threshold : Z) (work_orders : list WorkOrder) :
  let prepared :=
    retrieve_work_orders self message_kit data_source alice_verifying_key
      label in
  let map_id := (construct_hrac_and_map_id self alice_verifying_key label).2 in
  outcome prepared = Ok (threshold, work_orders) ->
  exists c followed unknown known generated,
    set_correctness_keys (capsule message_kit) (policy_pubkey data_source)
      (decrypting_key self) alice_verifying_key = Ok c
    /\ follow_treasure_map self None (Some map_id) true 10 0
       = (Ok (unknown, known, threshold), followed)
    /\ generate_work_orders followed map_id [c] None
       = (Ok generated, bob prepared)
    /\ work_orders = generated.*2
    /\ kit prepared = mkMessageKit c (ciphertext message_kit).
Proof.
  intros prepared map_id. unfold prepared, map_id, retrieve_work_orders.
  destruct (set_correctness_keys _ _ _ _) as [c|e]; [|done]. simpl.
  destruct (follow_treasure_map _ _ _ _ _ _)
    as [[[[unknown known] m']|e] followed] eqn:Hfollowed; [|done].
  destruct (generate_work_orders _ _ _ _) as [[generated|e] self'']
    eqn:Hgenerated; [|done].
  simpl. intros [= <- <-]. by exists c, followed, unknown, known, generated.
Qed.

Lemma collects_dispatched threshold message_kit work_orders log out
    message_kit' :
  collects threshold message_kit work_orders log out message_kit' ->
  dispatched log `prefix_of` work_orders.
Proof.
  induction 1; simpl; try apply prefix_cons; try apply prefix_nil; done.
Qed.

Lemma collects_attached threshold message_kit work_orders log out
    message_kit' :
  collects threshold message_kit work_orders log out message_kit' ->
  components (capsule message_kit') = components (capsule message_kit)
  /\ ciphertext message_kit' = ciphertext message_kit
  /\ _attached_cfrags (capsule message_kit')
     = _attached_cfrags (capsule message_kit) ++ attached_in log.
Proof.
  induction 1 as [mk|mk wo rest log out mk' Hanswer _ IH|mk wo rest e Hanswer He
                 |mk wo rest Hanswer|mk wo rest cf cfs Hanswer Hverify
                 |mk wo rest cf cfs c' Hanswer Hattach Hreached
                 |mk wo rest cf cfs c' log out mk' Hanswer Hattach Hbelow _ IH];
    simpl; rewrite ?app_nil_r; try done.
  - rewrite Hverify. by rewrite app_nil_r.
  - unfold attach_cfrag in Hattach.
    destruct (verify_correctness cf (capsule mk)); [|done].
    by injection Hattach as <-.
  - unfold attach_cfrag in Hattach.
    destruct (verify_correctness cf (capsule mk)); [|done].
    injection Hattach as <-. simpl in IH.
    destruct IH as (-> & -> & ->). by rewrite <- app_assoc.
Qed.

(** X8.  The work orders [retrieve] dispatches are a prefix of the work
    orders it generated, so the proxies are asked in the order of the
    treasure map, none twice, and none after the first left unasked; and
    the work orders generated are one per node id. *)
Theorem retrieve_dispatches_in_order (self : Bob.t) (message_kit : MessageKit)
    (data_source : DataSource) (alice_verifying_key label : bytes)
    (threshold : Z) (work_orders : list WorkOrder) :
  outcome (retrieve_work_orders self message_kit data_source
             alice_verifying_key label) = Ok (threshold, work_orders) ->
  let r := retrieve self message_kit data_source alice_verifying_key label in
  dispatched (calls r) `prefix_of` work_orders
  /\ exists generated : list (string * WorkOrder),
       work_orders = generated.*2 /\ NoDup generated.*1.
Proof.
  intros Hprepared r. split.
  - destruct (retrieve_collects _ _ _ _ _ _ _ Hprepared)
      as (start & out & Hrun & _).
    by eapply collects_dispatched.
  - destruct (retrieve_work_orders_inv _ _ _ _ _ _ _ Hprepared)
      as (c & followed & unknown & known & generated & _ & _ & Hgen & -> & _).
    exists generated. split; [done |].
    by apply generate_work_orders_inv in Hgen as (tm & _ & Hnodup & _).
Qed.

(** X9.  [retrieve] leaves the components of the capsule and the
    ciphertext of the message kit as they were when its loop began, and the
    fragments attached to the capsule afterwards are those attached before
    followed by the fragments of this run that passed the correctness
    check, in the order they came. *)
Theorem retrieve_attaches_what_verifies (self : Bob.t)
    (message_kit : MessageKit) (data_source : DataSource)
    (alice_verifying_key label : bytes) (threshold : Z)
    (work_orders : list WorkOrder) :
  let prepared :=
    retrieve_work_orders self message_kit data_source alice_verifying_key
      label in
  outcome prepared = Ok (threshold, work_orders) ->
  let r := retrieve self message_kit data_source alice_verifying_key label in
  components (capsule (kit r)) = components (capsule (kit prepared))
  /\ ciphertext (kit r) = ciphertext message_kit
  /\ _attached_cfrags (capsule (kit r))
     = _attached_cfrags (capsule (kit prepared)) ++ attached_in (calls r).
Proof.
  intros prepared Hprepared r.
  destruct (retrieve_work_orders_inv _ _ _ _ _ _ _ Hprepared)
    as (c & followed & unknown & known & generated & _ & _ & _ & _ & Hkit).
  fold prepared in Hkit.
  assert (Hrun : exists out,
    collects threshold (kit prepared) work_orders (calls r) out (kit r)).
  { unfold r, retrieve. fold prepared. rewrite Hprepared.
    assert (Hnil : calls prepared = []) by apply retrieve_work_orders_calls.
    pose proof (collect_cfrags_collects threshold work_orders (bob prepared)
                  (kit prepared) (calls prepared)) as Hcollects.
    cbv zeta in Hcollects.
    remember (collect_cfrags (bob prepared) (kit prepared) threshold
                work_orders (calls prepared)) as collected.
    destruct Hcollects as (new & Hcalls & Hcollects).
    rewrite Hnil in Hcalls. simpl in Hcalls. rewrite <- Hcalls in Hcollects.
    exists (outcome collected).
    destruct (outcome collected) as [[]|e]; [|done].
    by destruct (verify_from data_source (kit collected)). }
  destruct Hrun as (out & Hrun).
  apply collects_attached in Hrun as (Hcomponents & Hciphertext & Hattached).
  rewrite Hkit in Hciphertext. simpl in Hciphertext. done.
Qed.

(** *** A second [retrieve] *)

Lemma turn_single (self : Bob.t) (c : Capsule) (node_id : string)
    (arrangement : bytes) (node : Ursula)
    (generated : list (string * WorkOrder)) :
  in_history (turn self [c] node_id arrangement node generated).2 node_id c
  = true
  /\ (in_history self node_id c = true ->
      turn self [c] node_id arrangement node generated = (generated, self)).
Proof.
  unfold turn. simpl.
  destruct (in_history self node_id c) eqn:Hseen; simpl; [done |].
  split; [|done]. apply in_history_save. by left.
Qed.

Lemma generate_work_orders_loop_records (c : Capsule)
    (dests : list (string * bytes)) :
  forall (self self' : Bob.t) generated generated',
    generate_work_orders_loop self [c] None dests generated
    = (Ok generated', self') ->
    forall node_id arrangement,
      (node_id, arrangement) ∈ dests -> in_history self' node_id c = true.
Proof.
  induction dests as [|[node_id0 arrangement0] dests IH];
    intros self self' generated generated' Hloop node_id arrangement Hin.
  { by apply not_elem_of_nil in Hin. }
  rewrite generate_work_orders_loop_cons in Hloop.
  destruct (known_nodes self !! node_id0) as [node|]; [|done].
  cbv zeta in Hloop. rewrite bool_decide_eq_false_2 in Hloop by done.
  apply elem_of_cons in Hin as [[= -> ->]|Hin]; [|by eapply IH].
  apply generate_work_orders_loop_keeps in Hloop as (_ & _ & _ & Hkept).
  apply Hkept, turn_single.
Qed.

Lemma generate_work_orders_loop_nothing_new (c : Capsule)
    (num_ursulas : option Z) (dests : list (string * bytes)) :
  forall (self self' : Bob.t) generated r,
    (forall node_id arrangement,
       (node_id, arrangement) ∈ dests -> in_history self node_id c = true) ->
    generate_work_orders_loop self [c] num_ursulas dests generated
    = (r, self') ->
    self' = self /\ (r = Ok generated \/ exists node_id, r = Raise (KeyError node_id)).
Proof.
  induction dests as [|[node_id0 arrangement0] dests IH];
    intros self self' generated r Hseen.
  { simpl. intros [= <- <-]. auto. }
  rewrite generate_work_orders_loop_cons.
  destruct (known_nodes self !! node_id0) as [node|];
    [|intros [= <- <-]; eauto].
  cbv zeta.
  destruct (turn_single self c node_id0 arrangement0 node generated)
    as [_ Hsame].
  rewrite Hsame by (eapply Hseen, list_elem_of_here). simpl.
  destruct (bool_decide _); [intros [= <- <-]; auto |].
  apply IH. intros node_id arrangement Hin.
  eapply Hseen, list_elem_of_further, Hin.
Qed.

Lemma collect_cfrags_bob_keeps (threshold : Z) (work_orders : list WorkOrder) :
  forall (self : Bob.t) (message_kit : MessageKit) (log : list call),
    let after := bob (collect_cfrags self message_kit threshold work_orders log) in
    treasure_maps after = treasure_maps self
    /\ stamp after = stamp self
    /\ history_kept self after.
Proof.
  induction work_orders as [|work_order rest IH]; intros self message_kit log.
  { simpl. auto using history_kept_refl. }
  cbv zeta. rewrite collect_cfrags_cons.
  destruct (recorded_keeps self work_order) as (Hmaps & _ & Hstamp & Hkept & _).
  destruct (reencrypt work_order) as [[|cfrag cfrags]|e]; simpl.
  - done.
  - destruct (verify_correctness cfrag (capsule message_kit)); [|done].
    match goal with |- context [threshold <=? attached ?k] =>
      destruct (threshold <=? attached k) end; [done |].
    match goal with |- context [collect_cfrags ?s ?k _ _ ?l] =>
      destruct (IH s k l) as (Hmaps' & Hstamp' & Hkept') end.
    rewrite Hmaps', Hstamp'. eauto using history_kept_trans.
  - destruct e; simpl; auto using history_kept_refl.
Qed.

(** X10.  After a [retrieve] that came to its loop, a second [retrieve] by
    the same Bob for the same policy and a capsule of the same components
    asks no proxy and returns nothing: every destination has the capsule in
    its history since the first run, so no work order is generated, and
    when the second run comes to its loop it raises [NotEnoughUrsulas],
    whatever number of fragments the capsule carries. *)
Theorem retrieve_is_not_repeatable (self : Bob.t)
    (message_kit message_kit' : MessageKit)
    (data_source data_source' : DataSource)
    (alice_verifying_key label : bytes) :
  let first := retrieve self message_kit data_source alice_verifying_key label in
  let prepared :=
    retrieve_work_orders self message_kit data_source alice_verifying_key
      label in
  let prepared' :=
    retrieve_work_orders (bob first) message_kit' data_source'
      alice_verifying_key label in
  let second :=
    retrieve (bob first) message_kit' data_source' alice_verifying_key label in
  is_ok (outcome prepared) = true ->
  components (capsule (kit prepared')) = components (capsule (kit prepared)) ->
  calls second = []
  /\ is_ok (outcome second) = false
  /\ (is_ok (outcome prepared') = true ->
      outcome second = Raise (NotEnoughUrsulas "Unable to snag m cfrags.")).
Proof.
  intros first prepared prepared' second Hprepared Hsame.
  destruct (outcome prepared) as [[threshold work_orders]|e] eqn:Hfirst;
    [clear Hprepared | done].
  destruct (retrieve_work_orders_inv _ _ _ _ _ _ _ Hfirst)
    as (c & followed & unknown & known & generated
        & _ & Hfollowed & Hgenerated & _ & Hkit).
  fold prepared in Hgenerated, Hkit.
  apply follow_treasure_map_keeps in Hfollowed as (Hmaps1 & Hstamp1 & _).
  pose proof Hgenerated as Hkeeps.
  apply generate_work_orders_bob_keeps in Hkeeps as (Hmaps2 & _ & Hstamp2 & _).
  set (map_id := (construct_hrac_and_map_id self alice_verifying_key label).2)
    in *.
  (* every destination has the capsule in its history after the first run *)
  assert (Hrecorded : exists tm,
    treasure_maps (bob prepared) !! map_id = Some tm
    /\ forall node_id arrangement,
         (node_id, arrangement) ∈ destinations tm ->
         in_history (bob prepared) node_id c = true).
  { unfold generate_work_orders in Hgenerated.
    destruct (treasure_maps followed !! map_id) as [tm|] eqn:Htm; [|done].
    destruct (treasure_map_truthy tm); [|done]. simpl in Hgenerated.
    exists tm. split; [by rewrite Hmaps2 |].
    by eapply generate_work_orders_loop_records. }
  destruct Hrecorded as (tm & Htm & Hrecorded).
  (* the first run ends with the maps and the stamp as they were *)
  assert (Hbob : treasure_maps (bob first) = treasure_maps (bob prepared)
                 /\ stamp (bob first) = stamp self
                 /\ history_kept (bob prepared) (bob first)).
  { unfold first, retrieve. fold prepared. rewrite Hfirst.
    destruct (collect_cfrags_bob_keeps threshold work_orders (bob prepared)
                (kit prepared) (calls prepared)) as (Hmaps & Hstamp & Hkept).
    set (collected := collect_cfrags _ _ _ _ _) in *.
    assert (Hcase : forall A (x : run A), bob x = bob collected ->
      treasure_maps (bob x) = treasure_maps (bob prepared)
      /\ stamp (bob x) = stamp self
      /\ history_kept (bob prepared) (bob x)).
    { intros A x ->. rewrite Hmaps, Hstamp, Hstamp2, Hstamp1. done. }
    destruct (outcome collected) as [[]|e]; [|by apply Hcase].
    destruct (verify_from data_source (kit collected)); by apply Hcase. }
  destruct Hbob as (Hmaps3 & Hstamp3 & Hkept3).
  (* the second run generates nothing *)
  assert (Hsecond : calls prepared' = []
    /\ (forall threshold' work_orders',
          outcome prepared' = Ok (threshold', work_orders') ->
          work_orders' = [])).
  { split; [apply retrieve_work_orders_calls |].
    intros threshold' work_orders' Hsecond.
    destruct (retrieve_work_orders_inv _ _ _ _ _ _ _ Hsecond)
      as (c' & followed' & unknown' & known' & generated'
          & _ & Hfollowed' & Hgenerated' & -> & Hkit').
    fold prepared' in Hgenerated', Hkit'.
    assert (Hid : (construct_hrac_and_map_id (bob first) alice_verifying_key
                     label).2 = map_id).
    { unfold map_id, construct_hrac_and_map_id, construct_policy_hrac.
      simpl. by rewrite Hstamp3. }
    rewrite Hid in Hfollowed', Hgenerated'.
    apply follow_treasure_map_keeps in Hfollowed' as (Hmaps' & _ & Hsaved').
    unfold generate_work_orders in Hgenerated'.
    rewrite Hmaps', Hmaps3, Htm in Hgenerated'.
    destruct (treasure_map_truthy tm); [|done]. simpl in Hgenerated'.
    apply generate_work_orders_loop_nothing_new in Hgenerated'
      as [_ [[= ->]|[node_id [=]]]]; [done |].
    intros node_id arrangement Hin.
    rewrite Hkit, Hkit' in Hsame. simpl in Hsame.
    rewrite (in_history_components _ _ _ _ Hsame).
    unfold in_history. rewrite Hsaved'. apply Hkept3, (Hrecorded _ _ Hin). }
  destruct Hsecond as [Hnil Hnone].
  unfold second, retrieve. fold prepared'.
  destruct (outcome prepared') as [[threshold' work_orders']|e] eqn:Hout.
  - rewrite (Hnone _ _ eq_refl). simpl. by rewrite Hnil.
  - simpl. by rewrite Hnil.
Qed.

End RetrievingMore.

(** ** Bob: getting the treasure map and joining a policy *)

Section JoiningFacts.
Context `{Crypto} `{Middleware} `{Models} `{Random} `{Learning}
        `{Bob.Orienting}.
Import Bob.

(** A map id is the hex of a 32-byte digest, so never the empty string. *)
Lemma map_id_truthy (self : Bob.t) (verifying_key label : bytes) :
  str_truthy (construct_hrac_and_map_id self verifying_key label).2 = true.
Proof.
  unfold construct_hrac_and_map_id. simpl.
  pose proof (hex_length (keccak_digest
    (verifying_key ++ construct_policy_hrac self verifying_key label)))
    as Hlength.
  rewrite keccak_digest_length in Hlength.
  by destruct (hex _).
Qed.

(** What [get_treasure_map] leaves of Bob. *)
Lemma get_treasure_map_inv (self self' : Bob.t)
    (learning_task_running : bool) (alice_verifying_key label : bytes)
    (r : res TreasureMap) :
  get_treasure_map self learning_task_running alice_verifying_key label
  = (r, self') ->
  let map_id := (construct_hrac_and_map_id self alice_verifying_key label).2 in
  match r with
  | Ok tm =>
      self' = store_treasure_map self map_id tm
      /\ treasure_maps self' !! map_id = Some tm
      /\ (forall other, other <> map_id ->
            treasure_maps self' !! other = treasure_maps self !! other)
      /\ _pick_treasure_map self' None (Some map_id) = Ok tm
  | Raise _ => self' = self
  end.
Proof.
  intros Hget map_id.
  pose proof (map_id_truthy self alice_verifying_key label) as Htruthy.
  fold map_id in Htruthy.
  unfold get_treasure_map in Hget.
  change (construct_hrac_and_map_id self alice_verifying_key label)
    with (construct_policy_hrac self alice_verifying_key label, map_id)
    in Hget.
  cbv beta iota in Hget.
  destruct (bool_decide _ && negb _); [by injection Hget as <- <- |].
  destruct (get_treasure_map_from_known_ursulas self map_id) as [found|e];
    [|by injection Hget as <- <-].
  destruct (orient found alice_verifying_key self) as [tm|e];
    [|by injection Hget as <- <-].
  injection Hget as <- <-.
  split; [done |]. simpl. split; [apply lookup_insert_eq |].
  split; [by intros other Hother; apply lookup_insert_ne |].
  unfold _pick_treasure_map. rewrite Htruthy. simpl.
  by rewrite lookup_insert_eq.
Qed.

(** X11.  When [get_treasure_map] returns a map, Bob has stored exactly
    that map under the map id of the policy and changed nothing else, so
    choosing a treasure map by this id yields it; when it raises, Bob is as
    he was. *)
Theorem get_treasure_map_stores (self self' : Bob.t)
    (learning_task_running : bool) (alice_verifying_key label : bytes)
    (r : res TreasureMap) :
  get_treasure_map self learning_task_running alice_verifying_key label
  = (r, self') ->
  let map_id := (construct_hrac_and_map_id self alice_verifying_key label).2 in
  match r with
  | Ok tm =>
      self' = store_treasure_map self map_id tm
      /\ treasure_maps self' !! map_id = Some tm
      /\ (forall other, other <> map_id ->
            treasure_maps self' !! other = treasure_maps self !! other)
      /\ _pick_treasure_map self' None (Some map_id) = Ok tm
  | Raise _ => self' = self
  end.
Proof. apply get_treasure_map_inv. Qed.

(** X12.  A Bob who knows no node gets no treasure map: with the learning
    task not running [get_treasure_map] raises [NotEnoughTeachers], and
    with it running the check is passed but there is no one to ask, so
    [NowhereToBeFound] is raised; in both cases Bob is as he was. *)
Theorem get_treasure_map_knowing_no_one (self : Bob.t)
    (learning_task_running : bool) (alice_verifying_key label : bytes) :
  known_nodes self = ∅ ->
  get_treasure_map self learning_task_running alice_verifying_key label
  = (if learning_task_running then Raise NowhereToBeFound
     else Raise (NotEnoughTeachers ""), self).
Proof.
  intros Hnone. unfold get_treasure_map.
  destruct (construct_hrac_and_map_id self alice_verifying_key label)
    as [hrac map_id].
  rewrite Hnone, map_size_empty. simpl.
  destruct learning_task_running; simpl; [|done].
  unfold get_treasure_map_from_known_ursulas.
  rewrite Hnone, map_to_list_empty. simpl.
  pose proof (shuffled_perm []) as Hperm.
  apply Permutation_nil_r in Hperm. by rewrite Hperm.
Qed.

(** X13.  After a [join_policy] that returned, Bob holds a treasure map
    under the map id of the policy, the one [retrieve] will follow; and
    whatever [join_policy] does, it takes no treasure map away and leaves
    the work-order history alone. *)
Theorem join_policy_holds_the_map (self self' : Bob.t)
    (learning_task_running : bool) (label alice_pubkey_sig : bytes)
    (block : bool) (r : res unit) :
  join_policy self learning_task_running label alice_pubkey_sig block
  = (r, self') ->
  let map_id := (construct_hrac_and_map_id self alice_pubkey_sig label).2 in
  (r = Ok tt ->
   exists tm,
     treasure_maps self' !! map_id = Some tm
     /\ _pick_treasure_map self' None (Some map_id) = Ok tm)
  /\ (forall other, other <> map_id ->
        treasure_maps self' !! other = treasure_maps self !! other)
  /\ _saved_work_orders self' = _saved_work_orders self.
Proof.
  intros Hjoin map_id. unfold join_policy in Hjoin.
  destruct (get_treasure_map self learning_task_running alice_pubkey_sig label)
    as [[tm|e] got] eqn:Hgot.
  - apply get_treasure_map_inv in Hgot
      as (-> & Hstored & Hothers & Hpick).
    fold map_id in Hstored, Hothers, Hpick |- *.
    destruct (follow_treasure_map _ _ _ _ _ _) as [[followed|e] after]
      eqn:Hfollowed;
      injection Hjoin as <- <-;
      apply follow_treasure_map_keeps in Hfollowed as (Hmaps & _ & Hsaved);
      (split; [|split; [by intros other Hother; rewrite Hmaps; apply Hothers
                      | by rewrite Hsaved]]); [|done].
    intros _. exists tm. rewrite Hmaps. split; [done |].
    unfold _pick_treasure_map in *. rewrite Hmaps. done.
  - apply get_treasure_map_inv in Hgot as ->.
    injection Hjoin as <- <-. done.
Qed.

End JoiningFacts.

(** ** Alice: active policies *)

(** X14.  [add_active_policy] registers a policy under its id once: for a
    free id the policy is then found under it, every other entry is as
    before and there is one entry more; for a taken id it raises
    [KeyError]; and after a registration any policy of the same id is
    refused, so the first one stays. *)
Theorem add_active_policy_once {P : Type} (policy_id : P -> bytes)
    (active_policies : gmap bytes P) (active_policy : P) :
  match Alice.add_active_policy policy_id active_policies active_policy with
  | Ok added =>
      active_policies !! policy_id active_policy = None
      /\ added !! policy_id active_policy = Some active_policy
      /\ (forall other, other <> policy_id active_policy ->
            added !! other = active_policies !! other)
      /\ size added = S (size active_policies)
      /\ forall again, policy_id again = policy_id active_policy ->
           Alice.add_active_policy policy_id added again
           = Raise (KeyError "Policy already exists in active_policies.")
  | Raise e =>
      is_Some (active_policies !! policy_id active_policy)
      /\ e = KeyError "Policy already exists in active_policies."
  end.
Proof.
  unfold Alice.add_active_policy.
  destruct (active_policies !! policy_id active_policy) as [taken|] eqn:Hid.
  - rewrite bool_decide_eq_true_2 by eauto. eauto.
  - rewrite bool_decide_eq_false_2 by (by intros [? ?]).
    split; [done |]. split; [apply lookup_insert_eq |].
    split; [by intros other Hother; apply lookup_insert_ne |].
    split; [by apply map_size_insert_None |].
    intros again ->. rewrite lookup_insert_eq.
    by rewrite bool_decide_eq_true_2 by eauto.
Qed.

(** ** Alice: more on revocation *)

Section RevokingMore.
Context `{Middleware} `{Learning}.
Import Alice.

(** The revocation loop when it comes to its end: every address was known
    and in the kit, each got its call in turn, and the failures recorded
    are those of the calls that raised [NotFound] or
    [UnexpectedResponse]. *)
Lemma revoke_loop_returns (policy : Policy) (addresses : list string) :
  forall (self : Alice.t) (failed failed' : gmap string (bytes * exn))
         (log : list Alice.call),
    outcome (revoke_loop self policy addresses failed log) = Ok failed' ->
    NoDup addresses ->
    (exists revocations,
       mapM (revocation_call self policy) addresses = Some revocations
       /\ calls (revoke_loop self policy addresses failed log)
          = log ++ revocations)
    /\ forall node_id,
         failed' !! node_id
         = if decide (node_id ∈ addresses)
           then match revocation_failure self policy node_id with
                | Some failure => Some failure
                | None => failed !! node_id
                end
           else failed !! node_id.
Proof.
  induction addresses as [|address rest IH];
    intros self failed failed' log.
  { intros Hreturned _. cbn [revoke_loop outcome] in Hreturned.
    injection Hreturned as <-.
    split; [exists []; split; [done | by rewrite app_nil_r] |].
    intros node_id.
    destruct (decide (node_id ∈ [])) as [Hin|_]; [|done].
    by apply not_elem_of_nil in Hin. }
  cbn [revoke_loop].
  destruct (known_nodes self !! address) as [node|] eqn:Hnode; [|done].
  destruct (revocation_kit policy !! address) as [revocation|] eqn:Hkit;
    [|done].
  intros Hreturned [Hfresh Hnodup]%NoDup_cons.
  assert (Hstep : forall failed0 : gmap string (bytes * exn),
    outcome (revoke_loop self policy rest failed0
               (log ++ [CallRevokeArrangement node revocation])) = Ok failed' ->
    (exists revocations,
       mapM (revocation_call self policy) (address :: rest) = Some revocations
       /\ calls (revoke_loop self policy rest failed0
                   (log ++ [CallRevokeArrangement node revocation]))
          = log ++ revocations)
    /\ forall node_id,
         failed' !! node_id
         = if decide (node_id ∈ rest) then
             match revocation_failure self policy node_id with
             | Some failure => Some failure
             | None => failed0 !! node_id
             end
           else failed0 !! node_id).
  { intros failed0 Hrest.
    destruct (IH _ _ _ _ Hrest Hnodup) as ((revocations & Hmap & ->) & Hfailed).
    split; [|done].
    exists (CallRevokeArrangement node revocation :: revocations).
    split; [|by rewrite <- app_assoc].
    assert (Hcall : revocation_call self policy address
                    = Some (CallRevokeArrangement node revocation)).
    { unfold revocation_call. by rewrite Hnode, Hkit. }
    cbn [mapM]. rewrite Hcall. simpl. by rewrite Hmap. }
  assert (Hlookup : forall (failed0 : gmap string (bytes * exn)) failure0,
    match revoke_arrangement node revocation with
    | Raise NotFound => Some (revocation, NotFound)
    | Raise UnexpectedResponse => Some (revocation, UnexpectedResponse)
    | _ => None
    end = failure0 ->
    (forall node_id, node_id <> address ->
       failed0 !! node_id = failed !! node_id) ->
    failed0 !! address = match failure0 with
                         | Some failure => Some failure
                         | None => failed !! address
                         end ->
    (forall node_id,
       failed' !! node_id
       = if decide (node_id ∈ rest) then
           match revocation_failure self policy node_id with
           | Some failure => Some failure
           | None => failed0 !! node_id
           end
         else failed0 !! node_id) ->
    forall node_id,
      failed' !! node_id
      = if decide (node_id ∈ address :: rest) then
          match revocation_failure self policy node_id with
          | Some failure => Some failure
          | None => failed !! node_id
          end
        else failed !! node_id).
  { intros failed0 failure0 Hfail Hothers Hhere Hrest node_id.
    assert (Hfailure : revocation_failure self policy address = failure0).
    { unfold revocation_failure. by rewrite Hnode, Hkit. }
    rewrite Hrest. destruct (decide (node_id = address)) as [->|Hother].
    - rewrite decide_False by done.
      rewrite decide_True by apply list_elem_of_here.
      by rewrite Hhere, Hfailure.
    - rewrite (Hothers _ Hother).
      destruct (decide (node_id ∈ rest)) as [Hin|Hout].
      + by rewrite decide_True by by apply list_elem_of_further.
      + rewrite decide_False; [done |]. by intros [?|?]%elem_of_cons. }
  destruct (revoke_arrangement node revocation) as [response|e] eqn:Hanswer.
  - destruct (Hstep _ Hreturned) as [Hcalls Hfailed].
    split; [done |]. by apply (Hlookup failed None).
  - destruct e; try done.
    + destruct (Hstep _ Hreturned) as [Hcalls Hfailed].
      split; [done |].
      apply (Hlookup (<[address := (revocation, NotFound)]> failed)
               (Some (revocation, NotFound))); [done | | | done].
      * by intros node_id Hother; apply lookup_insert_ne.
      * apply lookup_insert_eq.
    + destruct (Hstep _ Hreturned) as [Hcalls Hfailed].
      split; [done |].
      apply (Hlookup (<[address := (revocation, UnexpectedResponse)]> failed)
               (Some (revocation, UnexpectedResponse))); [done | | | done].
      * by intros node_id Hother; apply lookup_insert_ne.
      * apply lookup_insert_eq.
Qed.

Lemma revoke_returns (self : Alice.t) (policy : Policy)
    (failed : gmap string (bytes * exn)) :
  outcome (revoke self policy) = Ok failed ->
  let addresses := dom (revocation_kit policy) in
  let wait :=
    CallBlockUntilSpecificNodesAreKnown addresses
      (n policy - revocation_threshold policy) in
  outcome (revoke_loop (alice (revoke self policy)) policy
             (elements addresses) ∅ [wait]) = Ok failed
  /\ calls (revoke self policy)
     = calls (revoke_loop (alice (revoke self policy)) policy
                (elements addresses) ∅ [wait]).
Proof.
  intros Hreturned addresses wait. revert Hreturned.
  unfold revoke. fold addresses. fold wait.
  destruct (block_until_specific_nodes_are_known _ _ _ _)
    as [[waited|e] known']; [|done].
  set (self' := with_known_nodes self known').
  destruct (revoke_loop_calls policy (elements addresses) self' ∅ [wait])
    as (-> & _). done.
Qed.

(** X15.  [revoke] returns its failure map only when every address of the
    revocation kit is a node Alice knows: an address still unknown after
    the wait, though within the tolerance of the wait, makes the loop
    raise. *)
Theorem revoke_returns_only_knowing_all (self : Alice.t) (policy : Policy) :
  is_ok (outcome (revoke self policy)) = true ->
  dom (revocation_kit policy) ⊆ dom (known_nodes (alice (revoke self policy))).
Proof.
  destruct (outcome (revoke self policy)) as [failed|e] eqn:Hreturned;
    [intros _ | done].
  apply revoke_returns in Hreturned as [Hloop _].
  apply revoke_loop_returns in Hloop as [(revocations & Hcalls & _) _];
    [|apply NoDup_elements].
  intros node_id Hin%elem_of_elements.
  apply mapM_Some_1 in Hcalls.
  destruct (proj1 (list_elem_of_lookup _ _) Hin) as [i Hi].
  destruct (Forall2_lookup_l _ _ _ _ _ Hcalls Hi) as (c & _ & Hcall).
  unfold revocation_call in Hcall. apply elem_of_dom.
  by destruct (known_nodes _ !! node_id).
Qed.

(** X16.  When [revoke] returns, it has waited once and then called
    [revoke_arrangement] once for each address of the kit, on the node
    known by that address with the revocation of that address; and the map
    it returns has an entry exactly for the addresses whose call raised
    [NotFound] or [UnexpectedResponse], holding that revocation and that
    error. *)
Theorem revoke_failure_map (self : Alice.t) (policy : Policy)
    (failed : gmap string (bytes * exn)) :
  outcome (revoke self policy) = Ok failed ->
  let r := revoke self policy in
  let addresses := dom (revocation_kit policy) in
  (exists revocations,
     mapM (revocation_call (alice r) policy) (elements addresses)
     = Some revocations
     /\ calls r
        = CallBlockUntilSpecificNodesAreKnown addresses
            (n policy - revocation_threshold policy) :: revocations)
  /\ (forall node_id,
        failed !! node_id
        = if decide (node_id ∈ addresses)
          then revocation_failure (alice r) policy node_id
          else None)
  /\ dom failed ⊆ addresses.
Proof.
  intros Hreturned r addresses.
  destruct (revoke_returns _ _ _ Hreturned) as [Hloop Hcalls].
  fold r addresses in Hloop, Hcalls.
  apply revoke_loop_returns in Hloop as [(revocations & Hmap & Hlog) Hfailed];
    [|apply NoDup_elements].
  assert (Hentries : forall node_id,
    failed !! node_id
    = if decide (node_id ∈ addresses)
      then revocation_failure (alice r) policy node_id
      else None).
  { intros node_id. rewrite Hfailed, lookup_empty.
    destruct (decide (node_id ∈ elements addresses)) as [Hin|Hout].
    - rewrite decide_True by by apply elem_of_elements.
      by destruct (revocation_failure _ _ _).
    - rewrite decide_False; [done |]. by rewrite <- elem_of_elements. }
  split; [|split; [done |]].
  - exists revocations. split; [done |]. by rewrite Hcalls, Hlog.
  - intros node_id [failure Hentry]%elem_of_dom.
    rewrite Hentries in Hentry. by destruct (decide (node_id ∈ addresses)).
Qed.

End RevokingMore.

(** ** Alice: more on granting *)

Section GrantingMore.
Context `{Models} `{Middleware} `{Random} `{Learning}.
Import Alice.




(** X19.  The policy that a federated-only Alice makes arrangements for
    was created over the nodes she knew when [grant] was called, shuffled,
    before any wait: a [FederatedPolicy] over a rearrangement of those
    nodes, with the kfrags and the public key that [generate_kfrags] gave
    for her label, [m] and [n]. *)
Theorem grant_creates_policy_before_waiting (self : Alice.t) (bob : Bob.t)
    (label : bytes) (m n expiration : option Z) (value : option payment)
    (handpicked_ursulas : option (gset Ursula))
    (policy : Policy) (number : Z) (value' : option payment)
    (handpicked : gset Ursula) :
  grant_create_policy self bob label m n expiration value handpicked_ursulas
  = Ok (policy, number, value', handpicked) ->
  federated_only self = true ->
  exists threshold ursulas public_key kfrags,
    m = Some threshold
    /\ n = Some number
    /\ generate_kfrags (Bob.decrypting_key bob) (stamp self) label threshold
         number = Ok (public_key, kfrags)
    /\ Permutation ursulas (map_to_list (known_nodes self)).*2
    /\ new_policy
         (FederatedPolicy ursulas
            (mkPayload label (Bob.decrypting_key bob) kfrags public_key
               threshold))
       = Ok policy.
Proof.
  intros Hcreated Hfederated.
  unfold grant_create_policy in Hcreated.
  destruct m as [threshold|], n as [number'|]; try done.
  assert (Hcreate : forall value0 policy0,
    create_policy self bob label threshold number' (federated_only self)
      expiration value0 (default ∅ handpicked_ursulas) = Ok policy0 ->
    exists ursulas public_key kfrags,
      generate_kfrags (Bob.decrypting_key bob) (stamp self) label threshold
        number' = Ok (public_key, kfrags)
      /\ Permutation ursulas (map_to_list (known_nodes self)).*2
      /\ new_policy
           (FederatedPolicy ursulas
              (mkPayload label (Bob.decrypting_key bob) kfrags public_key
                 threshold))
         = Ok policy0).
  { intros value0 policy0. unfold create_policy. rewrite Hfederated. simpl.
    intros ([public_key kfrags] & Hkfrags & Hpolicy)%bind_Ok.
    exists (shuffled (map_to_list (known_nodes self)).*2), public_key, kfrags.
    split; [done |]. split; [apply shuffled_perm | done]. }
  repeat case_match; try done.
  all: apply bind_Ok in Hcreated as (value0 & _ & Hcreated);
    apply bind_Ok in Hcreated as (policy0 & Hpolicy & Hcreated);
    injection Hcreated as <- <- _ _;
    destruct (Hcreate _ _ Hpolicy)
      as (ursulas & public_key & kfrags & Hkfrags & Hperm & Hnew);
    by exists threshold, ursulas, public_key, kfrags.
Qed.

End GrantingMore.

(** ** Ursula: more on decoding batches *)

Section BatchesMore.
Context `{UrsulaCodec.Codec}.
Import UrsulaCodec.


Lemma split_versions_short (nodes_vbytes : list bytes) :
  Exists (fun node => (length node < 2)%nat) nodes_vbytes ->
  split_versions nodes_vbytes = Raise BytestringSplittingError.
Proof.
  induction 1 as [node rest Hshort|node rest _ IH]; simpl.
  - unfold version_splitter, split_fixed.
    destruct (2 <=? length node)%nat eqn:Hlong; [|done].
    apply Nat.leb_le in Hlong. lia.
  - unfold version_splitter, split_fixed.
    destruct (2 <=? length node)%nat; [|done].
    simpl. by rewrite IH.
Qed.




(** X20.  A record too short to hold the two bytes of a version fails the
    whole batch: [batch_from_bytes] raises [BytestringSplittingError]
    before it decodes any record, whatever [fail_fast] is and whatever the
    other records are. *)
Theorem batch_from_bytes_short_record (ursulas_as_bytes : bytes)
    (federated_only fail_fast : bool) (nodes_vbytes : list bytes) :
  repeat_variable_length ursulas_as_bytes = Ok nodes_vbytes ->
  Exists (fun node => (length node < 2)%nat) nodes_vbytes ->
  batch_from_bytes ursulas_as_bytes federated_only fail_fast
  = (Raise BytestringSplittingError, []).
Proof.
  intros Hrepeat Hshort. unfold batch_from_bytes.
  by rewrite Hrepeat, (split_versions_short _ Hshort).
Qed.




End BatchesMore.

(** ** Ursula: what is written is what is read *)

Section EncodingFacts.
Context `{UrsulaCodec.Codec} `{UrsulaEncoding.Encoder}.
Import UrsulaCodec UrsulaEncoding.

Lemma byte_of_digit (d : Z) :
  0 <= d < 256 ->
  Z.of_N (Byte.to_N (default x00 (Byte.of_N (Z.to_N d)))) = d.
Proof.
  intros Hd.
  destruct (Byte.of_N (Z.to_N d)) as [b|] eqn:Hb; simpl.
  - apply Byte.to_of_N in Hb. rewrite Hb. lia.
  - apply Byte.of_N_None_iff in Hb. lia.
Qed.

Lemma int_from_bytes_big_digits (i : Z) :
  0 <= i < 65536 ->
  int_from_bytes_big (digits_big 2 i) = i.
Proof.
  intros Hi. unfold int_from_bytes_big. cbn [digits_big app fold_left].
  rewrite !byte_of_digit.
  - rewrite (Z.mod_small (i / 256) 256).
    + pose proof (Z.div_mod i 256). lia.
    + split; [apply Z.div_pos; lia | apply Z.div_lt_upper_bound; lia].
  - apply Z.mod_pos_bound. lia.
  - apply Z.mod_pos_bound. lia.
Qed.

(** X23.  [from_bytes] reads back the version that [__bytes__] wrote.
    With [TEACHER_VERSION] in the range of two bytes, [__bytes__] returns
    two bytes followed by the fields of the node; [from_bytes] splits them
    into [TEACHER_VERSION] and those fields, and refuses them with
    [IsFromTheFuture] when [TEACHER_VERSION] is above [LEARNER_VERSION].
    Outside that range [__bytes__] raises [OverflowError]. *)
Theorem from_bytes_reads_the_version_written (self : Ursula)
    (federated_only : bool) :
  let payload :=
    canonical_public_address self
    ++ bundle (domains self)
    ++ timestamp_bytes self
    ++ interface_signature self
    ++ variable_length (identity_evidence self)
    ++ verifying_key self
    ++ encrypting_key self
    ++ variable_length (public_bytes_pem (certificate self))
    ++ variable_length (rest_information self) in
  (0 <= TEACHER_VERSION < 65536 ->
   exists hi lo,
     __bytes__ self = Ok (hi :: lo :: payload)
     /\ version_splitter (hi :: lo :: payload) = Ok (TEACHER_VERSION, payload)
     /\ from_bytes (hi :: lo :: payload) None federated_only
        = from_bytes payload (Some TEACHER_VERSION) federated_only
     /\ (LEARNER_VERSION < TEACHER_VERSION ->
         from_bytes (hi :: lo :: payload) None federated_only
         = Raise (IsFromTheFuture (future_message TEACHER_VERSION payload))))
  /\ (TEACHER_VERSION < 0 \/ 65536 <= TEACHER_VERSION ->
      __bytes__ self = Raise (OtherException "OverflowError")).
Proof.
  intros payload. split.
  - intros Hrange.
    pose proof (int_from_bytes_big_digits _ Hrange) as Hread.
    cbn [digits_big app] in Hread.
    eexists _, _.
    assert (Hsplit :
      version_splitter
        (default x00 (Byte.of_N (Z.to_N ((TEACHER_VERSION / 256) mod 256)))
         :: default x00 (Byte.of_N (Z.to_N (TEACHER_VERSION mod 256)))
         :: payload)
      = Ok (TEACHER_VERSION, payload)).
    { rewrite <- Hread at 3. reflexivity. }
    split; [|split; [exact Hsplit | split]].
    + unfold __bytes__, int_to_bytes_big.
      destruct (TEACHER_VERSION <? 0) eqn:Hneg; [apply Z.ltb_lt in Hneg; lia |].
      destruct (256 ^ Z.of_nat 2 <=? TEACHER_VERSION) eqn:Hbig;
        [apply Z.leb_le in Hbig; simpl in Hbig; lia |].
      reflexivity.
    + unfold from_bytes. by rewrite Hsplit.
    + intros Hfuture. unfold from_bytes. rewrite Hsplit. simpl.
      apply Z.ltb_lt in Hfuture. by rewrite Hfuture.
  - intros Hout. unfold __bytes__, int_to_bytes_big.
    destruct (TEACHER_VERSION <? 0) eqn:Hneg; [done |].
    apply Z.ltb_ge in Hneg.
    destruct (256 ^ Z.of_nat 2 <=? TEACHER_VERSION) eqn:Hbig; [done |].
    apply Z.leb_gt in Hbig. simpl in Hbig. lia.
Qed.

End EncodingFacts.

(** ** Ursula: the alternate constructors *)

Section SeedingFacts.
Context {W : Type} `{UrsulaCodec.Codec} `{!Seeding.Network W}.
Import UrsulaCodec Seeding.

Lemma M_bind_Ok {A B} (c : M W A) (k : A -> M W B) (w w' : W) (v : B) :
  (c ≫= k) w = (Ok v, w') ->
  exists a w1, c w = (Ok a, w1) /\ k a w1 = (Ok v, w').
Proof.
  unfold mbind, M_bind, bind.
  destruct (c w) as [[a|e] w1]; [eauto | done].
Qed.

Lemma M_bind_Raise {A B} (c : M W A) (k : A -> M W B) (w w' : W) (e : error) :
  (c ≫= k) w = (Raise e, w') ->
  c w = (Raise e, w')
  \/ exists a w1, c w = (Ok a, w1) /\ k a w1 = (Raise e, w').
Proof.
  unfold mbind, M_bind, bind.
  destruct (c w) as [[a|e0] w1]; [eauto | intros [= -> ->]; by left].
Qed.

Lemma lift_Ok {A} (r : res A) (w w' : W) (v : A) :
  lift r w = (Ok v, w') -> r = Ok v /\ w' = w.
Proof. unfold lift. destruct r; [by intros [= -> ->] | done]. Qed.

Lemma lift_Raise {A} (r : res A) (w w' : W) (e : error) :
  lift r w = (Raise e, w') -> exists e0, e = Propagated e0.
Proof. unfold lift. destruct r; [done | intros [= <- _]; eauto]. Qed.

Lemma call_Ok {A} (f : W -> res A * W) (w w' : W) (v : A) :
  call f w = (Ok v, w') -> f w = (Ok v, w').
Proof. unfold call. destruct (f w) as [[a|e] w1]; [by intros [= -> ->] | done]. Qed.

Lemma call_Raise {A} (f : W -> res A * W) (w w' : W) (e : error) :
  call f w = (Raise e, w') -> exists e0, e = Propagated e0.
Proof.
  unfold call. destruct (f w) as [[a|e0] w1]; [done | intros [= <- _]; eauto].
Qed.

(** What a [from_seed_and_stake_info] that returned went through. *)
Lemma from_seed_and_stake_info_Ok (seed_uri : string) (federated_only : bool)
    (minimum_stake : Z) (checksum_address : option string) (w w' : W)
    (seed : SeedNode) :
  from_seed_and_stake_info seed_uri federated_only minimum_stake
    checksum_address w = (Ok seed, w') ->
  exists host port expected certificate real_host others w1 w2
         response_data w3 w4,
    validate_checksum_address checksum_address = Ok tt
    /\ parse_node_uri seed_uri = Ok (host, port, expected)
    /\ get_certificate host port w = (Ok certificate, w1)
    /\ common_names certificate = real_host :: others
    /\ store_node_certificate federated_only certificate w1
       = (Ok (certificate_filepath seed), w2)
    /\ node_information real_host port (certificate_filepath seed) w2
       = (Ok response_data, w3)
    /\ from_bytes response_data None federated_only = Ok (node seed)
    /\ (forall address,
          expected = Some address ->
          str_truthy address = true ->
          address = checksum_public_address (node seed))
    /\ minimum_stake <= 0
    /\ verify_node (node seed) federated_only (certificate_filepath seed) w3
       = (Ok tt, w4)
    /\ w' = forget w4.
Proof.
  unfold from_seed_and_stake_info.
  intros ([] & w0 & [Hvalid ->]%lift_Ok & Hrun)%M_bind_Ok.
  apply M_bind_Ok in Hrun
    as ([[host port] expected] & w0 & [Hparse ->]%lift_Ok & Hrun).
  apply M_bind_Ok in Hrun as (certificate & w1 & Hcert%call_Ok & Hrun).
  apply M_bind_Ok in Hrun as (real_host & w1' & [Hname ->]%lift_Ok & Hrun).
  apply M_bind_Ok in Hrun as (filepath & w2 & Hstore%call_Ok & Hrun).
  apply M_bind_Ok in Hrun as (potential & w3 & Hnode & Hrun).
  apply M_bind_Ok in Hrun as ([] & w3' & Hchecksum & Hrun).
  apply M_bind_Ok in Hrun as ([] & w3'' & Hstake & Hrun).
  apply M_bind_Ok in Hrun as ([] & w4 & Hverify%call_Ok & Hrun).
  apply M_bind_Ok in Hrun as ([] & w5 & [= <-] & [= <- <-]).
  unfold from_rest_url in Hnode.
  apply M_bind_Ok in Hnode
    as (response_data & w3a & Hinfo%call_Ok & [Hdecode <-]%lift_Ok).
  destruct (common_names certificate) as [|name others] eqn:Hnames;
    [done |].
  injection Hname as ->.
  assert (w3' = w3 /\
          forall address, expected = Some address ->
            str_truthy address = true ->
            address = checksum_public_address potential) as [-> Hexpected].
  { destruct expected as [address|].
    - destruct (str_truthy address) eqn:Htruthy; simpl in Hchecksum.
      + destruct (bool_decide (address = checksum_public_address potential))
          eqn:Hsame; simpl in Hchecksum; [|done].
        apply bool_decide_eq_true in Hsame.
        injection Hchecksum as <-. split; [done |].
        by intros ? [= <-] _.
      + injection Hchecksum as <-. split; [done |].
        intros ? [= <-]. congruence.
    - injection Hchecksum as <-. split; [done |]. by intros. }
  destruct (0 <? minimum_stake) eqn:Hpositive; [done |].
  injection Hstake as <-.
  apply Z.ltb_ge in Hpositive.
  exists host, port, expected, certificate, real_host, others, w1, w2,
    response_data, w3, w4.
  by repeat split.
Qed.

(** X24.  A node that [from_seed_and_stake_info] returns was reached at
    the host named in the certificate of the seed, not at the host of the
    URI; it was decoded by [from_bytes] from what that host answered; its
    checksum address is the one that [parse_node_uri] read in the URI,
    when it read one; [verify_node] accepted it; and the temporary storage
    was forgotten after that. *)
Theorem from_seed_and_stake_info_returns_verified (seed_uri : string)
    (federated_only : bool) (minimum_stake : Z)
    (checksum_address : option string) (w w' : W) (seed : SeedNode) :
  from_seed_and_stake_info seed_uri federated_only minimum_stake
    checksum_address w = (Ok seed, w') ->
  exists host port expected certificate real_host others w1 w2
         response_data w3 w4,
    parse_node_uri seed_uri = Ok (host, port, expected)
    /\ get_certificate host port w = (Ok certificate, w1)
    /\ common_names certificate = real_host :: others
    /\ store_node_certificate federated_only certificate w1
       = (Ok (certificate_filepath seed), w2)
    /\ node_information real_host port (certificate_filepath seed) w2
       = (Ok response_data, w3)
    /\ from_bytes response_data None federated_only = Ok (node seed)
    /\ (forall address,
          expected = Some address ->
          str_truthy address = true ->
          address = checksum_public_address (node seed))
    /\ verify_node (node seed) federated_only (certificate_filepath seed) w3
       = (Ok tt, w4)
    /\ w' = forget w4.
Proof.
  intros Hreturned.
  destruct (from_seed_and_stake_info_Ok _ _ _ _ _ _ _ Hreturned)
    as (host & port & expected & certificate & real_host & others & w1 & w2
        & response_data & w3 & w4 & _ & Hparse & Hcert & Hnames & Hstore
        & Hinfo & Hdecode & Hexpected & _ & Hverify & Hforget).
  exists host, port, expected, certificate, real_host, others, w1, w2,
    response_data, w3, w4.
  by repeat split.
Qed.

Lemma attempt_never_ok (federated_only : bool) (teacher_uri hostname : string)
    (port : Z) (checksum_address : option string) (min_stake : Z) :
  (forall w,
     is_ok (from_seed_and_stake_info (host_and_port hostname port)
              federated_only min_stake checksum_address w).1 = false) ->
  forall fuel round interval w outcome w' events,
    __attempt fuel federated_only teacher_uri hostname port checksum_address
      min_stake round interval w = Some (outcome, w', events) ->
    is_ok outcome = false.
Proof.
  intros Hnever.
  induction fuel as [|fuel IH]; intros round interval w outcome w' events;
    simpl; [done |].
  destruct (3 <? round); [by intros [= <- _ _] |].
  specialize (Hnever w).
  destruct (from_seed_and_stake_info _ _ _ _ w) as [[teacher|e] w1];
    [done |].
  assert (Hraise : Some (Raise e : result error SeedNode, w1, @nil event)
                   = Some (outcome, w', events) -> is_ok outcome = false)
    by by intros [= <- _ _].
  destruct e as [e| | |]; try exact Hraise.
  destruct e; try exact Hraise.
  destruct (__attempt fuel _ _ _ _ _ _ _ _ _) as [[[teacher w2] later]|]
    eqn:Hnext; [|done].
  intros [= <- _ _]. by apply IH in Hnext.
Qed.

(** X25.  With a minimum stake above zero no node is ever returned:
    [from_seed_and_stake_info] raises, at the latest the
    [NotImplementedError] of the stake check, and so does
    [from_teacher_uri], however many times it tries. *)
Theorem minimum_stake_is_not_implemented (minimum_stake : Z) :
  0 < minimum_stake ->
  (forall seed_uri federated_only checksum_address (w : W),
     is_ok (from_seed_and_stake_info seed_uri federated_only minimum_stake
              checksum_address w).1 = false)
  /\ (forall fuel federated_only teacher_uri (w : W) outcome w' events,
        from_teacher_uri fuel federated_only teacher_uri minimum_stake w
        = Some (outcome, w', events) ->
        is_ok outcome = false).
Proof.
  intros Hpositive.
  assert (Hseed : forall seed_uri federated_only checksum_address (w : W),
    is_ok (from_seed_and_stake_info seed_uri federated_only minimum_stake
             checksum_address w).1 = false).
  { intros seed_uri federated_only checksum_address w.
    destruct (from_seed_and_stake_info _ _ _ _ w) as [[seed|e] w'] eqn:Hrun;
      [|done].
    apply from_seed_and_stake_info_Ok in Hrun
      as (? & ? & ? & ? & ? & ? & ? & ? & ? & ? & ? & _ & _ & _ & _ & _ & _
          & _ & _ & Hstake & _).
    lia. }
  split; [exact Hseed |].
  intros fuel federated_only teacher_uri w outcome w' events.
  unfold from_teacher_uri.
  destruct (parse_node_uri teacher_uri) as [[[hostname port] checksum]|e];
    [|by intros [= <- _ _]].
  apply attempt_never_ok. intros w0. apply Hseed.
Qed.

Lemma attempt_from (federated_only : bool) (teacher_uri hostname : string)
    (port : Z) (checksum_address : option string) (min_stake : Z)
    (left : nat) :
  forall (round fuel : nat) (w : W),
    (round + left = 4)%nat ->
    (left < fuel)%nat ->
    let attempt :=
      from_seed_and_stake_info (host_and_port hostname port) federated_only
        min_stake checksum_address in
    let world i :=
      after_attempts federated_only hostname port checksum_address
        min_stake i w in
    exists failed outcome w',
      __attempt fuel federated_only teacher_uri hostname port
        checksum_address min_stake (Z.of_nat round) 10 w
      = Some (outcome, w',
              flat_map (fun round =>
                          [Warned (retry_warning (Z.of_nat round) 10);
                           Slept 10])
                (seq round failed))
      /\ (failed <= left)%nat
      /\ (forall i, (i < failed)%nat ->
            (attempt (world i)).1 = Raise (Propagated NodeSeemsToBeDown))
      /\ (failed = left ->
          outcome = Raise (ConnectionRefusedError
                             ("Host " +:+ teacher_uri
                              +:+ " Refused Connection"))
          /\ w' = world left)
      /\ ((failed < left)%nat ->
          (outcome, w') = attempt (world failed)
          /\ outcome <> Raise (Propagated NodeSeemsToBeDown)).
Proof.
  induction left as [|left IH]; intros round fuel w Hround Hfuel attempt world;
    (destruct fuel as [|fuel]; [lia |]).
  - exists 0%nat, (Raise (ConnectionRefusedError
                           ("Host " +:+ teacher_uri +:+ " Refused Connection"))),
      w.
    simpl. replace (3 <? Z.of_nat round) with true
      by (symmetry; apply Z.ltb_lt; lia).
    split; [done |]. split; [done |]. split; [intros; lia |].
    split; [done | intros; lia].
  - cbn [__attempt]. replace (3 <? Z.of_nat round) with false
      by (symmetry; apply Z.ltb_ge; lia).
    fold attempt.
    destruct (attempt w) as [teacher w1] eqn:Hfirst.
    assert (Hother : teacher <> Raise (Propagated NodeSeemsToBeDown) ->
      exists failed outcome w',
        Some (teacher, w1, @nil event)
        = Some (outcome, w',
                flat_map (fun round =>
                            [Warned (retry_warning (Z.of_nat round) 10);
                             Slept 10])
                  (seq round failed))
        /\ (failed <= S left)%nat
        /\ (forall i, (i < failed)%nat ->
              (attempt (world i)).1 = Raise (Propagated NodeSeemsToBeDown))
        /\ (failed = S left ->
            outcome = Raise (ConnectionRefusedError
                               ("Host " +:+ teacher_uri
                                +:+ " Refused Connection"))
            /\ w' = world (S left))
        /\ ((failed < S left)%nat ->
            (outcome, w') = attempt (world failed)
            /\ outcome <> Raise (Propagated NodeSeemsToBeDown))).
    { intros Hnot. exists 0%nat, teacher, w1. simpl.
      split; [done |]. split; [lia |]. split; [intros; lia |].
      split; [intros; lia |]. intros _. by rewrite <- Hfirst. }
    destruct teacher as [seed|e]; [by apply Hother |].
    destruct e as [e| | |]; try by apply Hother.
    destruct e; try by apply Hother.
    clear Hother.
    destruct (IH (S round) fuel (sleep 10 w1) ltac:(lia) ltac:(lia))
      as (failed & outcome & w' & Hrun & Hbound & Hdown & Hrefused & Hgot).
    replace (Z.of_nat round + 1) with (Z.of_nat (S round)) by lia.
    rewrite Hrun.
    assert (Hworld : forall i,
      after_attempts federated_only hostname port checksum_address min_stake
        i (sleep 10 w1) = world (S i)).
    { intros i. unfold world, after_attempts.
      rewrite Nat.iter_succ_r. fold attempt. by rewrite Hfirst. }
    exists (S failed), outcome, w'.
    split; [done |]. split; [lia |]. split.
    { intros [|i] Hi.
      - unfold world, after_attempts. simpl. by rewrite Hfirst.
      - rewrite <- Hworld. apply Hdown. lia. }
    split.
    + intros [= ->]. destruct (Hrefused eq_refl) as [-> ->].
      by rewrite Hworld.
    + intros Hless. destruct (Hgot ltac:(lia)) as [Houtcome Hnot].
      by rewrite <- Hworld.
Qed.

(** X26.  [from_teacher_uri] tries [from_seed_and_stake_info] at most
    three times, and again only after [NodeSeemsToBeDown]: it returns the
    node, or raises the exception, of the first attempt that ends
    otherwise.  After each attempt that it gives up on, the third too, it
    logs a warning and sleeps ten seconds; after three of them it raises
    [ConnectionRefusedError] naming the URI.  A recursion of depth four
    is enough for all of this. *)
Theorem from_teacher_uri_tries_three_times (fuel : nat)
    (federated_only : bool) (teacher_uri hostname : string) (port : Z)
    (checksum_address : option string) (min_stake : Z) (w : W) :
  (4 <= fuel)%nat ->
  parse_node_uri teacher_uri = Ok (hostname, port, checksum_address) ->
  let attempt :=
    from_seed_and_stake_info (host_and_port hostname port) federated_only
      min_stake checksum_address in
  let world i :=
    after_attempts federated_only hostname port checksum_address
      min_stake i w in
  exists failed outcome w',
    from_teacher_uri fuel federated_only teacher_uri min_stake w
    = Some (outcome, w', retries_logged failed)
    /\ (failed <= 3)%nat
    /\ (forall i, (i < failed)%nat ->
          (attempt (world i)).1 = Raise (Propagated NodeSeemsToBeDown))
    /\ (failed = 3%nat ->
        outcome = Raise (ConnectionRefusedError
                           ("Host " +:+ teacher_uri +:+ " Refused Connection"))
        /\ w' = world 3%nat)
    /\ ((failed < 3)%nat ->
        (outcome, w') = attempt (world failed)
        /\ outcome <> Raise (Propagated NodeSeemsToBeDown)).
Proof.
  intros Hfuel Hparse attempt world.
  unfold from_teacher_uri. rewrite Hparse.
  exact (attempt_from federated_only teacher_uri hostname port
           checksum_address min_stake 3 1 fuel w eq_refl Hfuel).
Qed.

(** X27.  The [checksum_address] that [from_seed_and_stake_info] is
    called with goes to the decorator and nowhere else: two calls that
    differ in it alone and both pass the decorator end alike, and so do
    two calls of [from_seednode_metadata] for seednodes of the same host
    and port.  The node is compared with the address that
    [parse_node_uri] reads in [seed_uri]; when it reads none,
    [SuspiciousActivity] is never raised, whatever node answers. *)
Theorem from_seed_and_stake_info_ignores_checksum_address
    (seed_uri : string) (federated_only : bool) (minimum_stake : Z) (w : W) :
  (forall first second,
     validate_checksum_address first = Ok tt ->
     validate_checksum_address second = Ok tt ->
     from_seed_and_stake_info seed_uri federated_only minimum_stake first w
     = from_seed_and_stake_info seed_uri federated_only minimum_stake
         second w)
  /\ (forall first second,
        metadata_rest_host first = metadata_rest_host second ->
        metadata_rest_port first = metadata_rest_port second ->
        validate_checksum_address
          (Some (metadata_checksum_public_address first)) = Ok tt ->
        validate_checksum_address
          (Some (metadata_checksum_public_address second)) = Ok tt ->
        from_seednode_metadata first federated_only minimum_stake w
        = from_seednode_metadata second federated_only minimum_stake w)
  /\ (forall host port checksum_address msg w',
        parse_node_uri seed_uri = Ok (host, port, None) ->
        from_seed_and_stake_info seed_uri federated_only minimum_stake
          checksum_address w
        <> (Raise (SuspiciousActivity msg), w')).
Proof.
  split; [|split].
  - intros first second Hfirst Hsecond.
    unfold from_seed_and_stake_info, mbind, M_bind, bind, lift.
    by rewrite Hfirst, Hsecond.
  - intros first second Hhost Hport Hfirst Hsecond.
    unfold from_seednode_metadata, from_seed_and_stake_info, mbind, M_bind,
      bind, lift.
    by rewrite Hfirst, Hsecond, Hhost, Hport.
  - intros host port checksum_address msg w' Hparse Hrun.
    unfold from_seed_and_stake_info in Hrun. rewrite Hparse in Hrun.
    apply M_bind_Raise in Hrun as [(? & [=])%lift_Raise|(? & ? & _ & Hrun)].
    apply M_bind_Raise in Hrun as [(? & [=])%lift_Raise|(? & ? & Hhere & Hrun)].
    apply lift_Ok in Hhere as [[= <-] ->].
    apply M_bind_Raise in Hrun as [(? & [=])%call_Raise|(? & ? & _ & Hrun)].
    apply M_bind_Raise in Hrun as [(? & [=])%lift_Raise|(? & ? & _ & Hrun)].
    apply M_bind_Raise in Hrun as [(? & [=])%call_Raise|(? & ? & _ & Hrun)].
    apply M_bind_Raise in Hrun as [Hnode|(? & ? & _ & Hrun)].
    { unfold from_rest_url in Hnode.
      by apply M_bind_Raise in Hnode
        as [(? & [=])%call_Raise|(? & ? & _ & (? & [=])%lift_Raise)]. }
    apply M_bind_Raise in Hrun as [[=]|(? & ? & _ & Hrun)].
    apply M_bind_Raise in Hrun as [Hstake|(? & ? & _ & Hrun)].
    { by destruct (0 <? minimum_stake). }
    apply M_bind_Raise in Hrun as [(? & [=])%call_Raise|(? & ? & _ & Hrun)].
    by apply M_bind_Raise in Hrun as [[=]|(? & ? & _ & [=])].
Qed.

End SeedingFacts.

(** ** Bob: the map id as a key *)

Section MapIds.
Context `{Crypto}.

(** X28.  The map id names one digest: [hex] loses nothing, so two
    policies get the same map id, the key Bob stores a treasure map under,
    only when the keccak digests of their verifying key and HRAC are the
    same. *)
Theorem map_id_names_one_digest (self self' : Bob.t)
    (verifying_key verifying_key' label label' : bytes) :
  (Bob.construct_hrac_and_map_id self verifying_key label).2
  = (Bob.construct_hrac_and_map_id self' verifying_key' label').2 ->
  keccak_digest
    (verifying_key
     ++ (Bob.construct_hrac_and_map_id self verifying_key label).1)
  = keccak_digest
      (verifying_key'
       ++ (Bob.construct_hrac_and_map_id self' verifying_key' label').1).
Proof.
  unfold Bob.construct_hrac_and_map_id. simpl. apply hex_inj.
Qed.

End MapIds.

(** ** The statements above, on the fixtures *)

(** X2 on the Bob who knows the five nodes and holds a map to [0xA] and
    to [0xZ], a node he does not know. *)
Lemma peek_at_treasure_map_partitions_witness :
  exists unknown known : gset string,
    Bob.peek_at_treasure_map
      (Fixtures.bob_retrieving 2 ["0xA"; "0xZ"]%string) None
      (Some Fixtures.toy_map_id) = Ok (unknown, known)
    /\ "0xZ"%string ∈ unknown
    /\ "0xA"%string ∈ known
    /\ unknown ## known
    /\ known ⊆ dom (Bob.known_nodes
                      (Fixtures.bob_retrieving 2 ["0xA"; "0xZ"]%string)).
Proof.
  eexists _, _. split; [reflexivity |].
  split; [by vm_compute |]. split; [by vm_compute |].
  destruct (peek_at_treasure_map_partitions
              (Fixtures.bob_retrieving 2 ["0xA"; "0xZ"]%string) None
              (Some Fixtures.toy_map_id) _ _ eq_refl)
    as (tm & _ & _ & Hdisjoint & Hknown & _).
  split; [exact Hdisjoint | exact Hknown].
Defined.

(** X3 on the Bob who holds the map with the destination [0xA], asked for
    one capsule: one work order, for [0xA], under the arrangement of the
    map, with that capsule. *)
Lemma generate_work_orders_orders_witness :
  let run :=
    Bob.generate_work_orders Fixtures.bob_with_map "aa"
      [Fixtures.capsule_one] None in
  run.1 = Ok [("0xA"%string, Fixtures.order_for "0xA")]
  /\ exists tm,
       Bob.treasure_maps Fixtures.bob_with_map !! "aa"%string = Some tm
       /\ ("0xA"%string, arrangement_id (Fixtures.order_for "0xA"))
          ∈ destinations tm.
Proof.
  intros run. split; [reflexivity |].
  destruct (generate_work_orders_orders Fixtures.bob_with_map run.2 "aa"
              [Fixtures.capsule_one] None
              [("0xA"%string, Fixtures.order_for "0xA")] eq_refl)
    as (tm & Hmap & _ & Horders).
  exists tm. split; [exact Hmap |].
  exact (proj1 (Horders "0xA"%string (Fixtures.order_for "0xA")
                  (list_elem_of_here _ _))).
Defined.

(** X4 on the Bob who holds a map to [0xA], [0xD] and [0xE] and asks for
    two work orders: two are returned. *)
Lemma generate_work_orders_at_most_witness :
  let run :=
    Bob.generate_work_orders
      (Fixtures.bob_retrieving 2 ["0xA"; "0xD"; "0xE"]%string)
      Fixtures.toy_map_id [Fixtures.capsule_one] (Some 2) in
  run.1 = Ok [("0xA"%string, Fixtures.order_for "0xA");
              ("0xD"%string, Fixtures.order_for "0xD")]
  /\ Z.of_nat (length [("0xA"%string, Fixtures.order_for "0xA");
                       ("0xD"%string, Fixtures.order_for "0xD")]) <= 2.
Proof.
  intros run. split; [reflexivity |].
  exact (proj2
           (generate_work_orders_at_most
              (Fixtures.bob_retrieving 2 ["0xA"; "0xD"; "0xE"]%string)
              run.2 Fixtures.toy_map_id [Fixtures.capsule_one] (Some 2)
              [("0xA"%string, Fixtures.order_for "0xA");
               ("0xD"%string, Fixtures.order_for "0xD")] eq_refl)
           2 eq_refl ltac:(lia)).
Defined.


(** X6 on the Bob who holds the map with the destination [0xA]: once
    [0xA] has answered the work order for the first capsule, a call for
    both capsules gives [0xA] a work order with the second alone. *)
Lemma recorded_response_is_not_reissued_witness :
  let first :=
    Bob.generate_work_orders Fixtures.bob_with_map "aa"
      [Fixtures.capsule_one] None in
  let answered :=
    @Bob.get_reencrypted_cfrags Fixtures.toy_middleware first.2
      (Fixtures.order_for "0xA") in
  let again :=
    Bob.generate_work_orders answered.2 "aa"
      [Fixtures.capsule_one; Fixtures.capsule_two] None in
  answered.1 = Ok [[xaa]]
  /\ again.1
     = Ok [("0xA"%string,
            mkWorkOrder [x01] [Fixtures.capsule_two]
              (Fixtures.ursula_at "0xA") [x0b])]
  /\ components Fixtures.capsule_two <> components Fixtures.capsule_one.
Proof.
  intros first answered again.
  split; [reflexivity |]. split; [reflexivity |].
  apply (@recorded_response_is_not_reissued Fixtures.toy_middleware
           first.2 answered.2 answered.2 again.2 (Fixtures.order_for "0xA")
           [[xaa]] "aa" [Fixtures.capsule_one; Fixtures.capsule_two] None
           [("0xA"%string,
             mkWorkOrder [x01] [Fixtures.capsule_two]
               (Fixtures.ursula_at "0xA") [x0b])]
           eq_refl (fun _ _ Hin => Hin) eq_refl
           (mkWorkOrder [x01] [Fixtures.capsule_two]
              (Fixtures.ursula_at "0xA") [x0b])).
  - apply list_elem_of_here.
  - apply list_elem_of_here.
  - apply list_elem_of_here.
Defined.


(** X8 on the five nodes, with threshold 2 and the destinations [0xB],
    [0xA], [0xD], [0xE]: the first three are asked, in that order, and
    [0xE] is not. *)
Lemma retrieve_dispatches_in_order_witness :
  let r :=
    @Bob.retrieve Fixtures.toy_crypto Fixtures.toy_middleware
      Fixtures.no_learning
      (Fixtures.bob_retrieving 2 ["0xB"; "0xA"; "0xD"; "0xE"]%string)
      Fixtures.kit_one Fixtures.enrico [] [] in
  Bob.dispatched (Bob.calls r)
  = map Fixtures.order_for ["0xB"; "0xA"; "0xD"]%string
  /\ Bob.dispatched (Bob.calls r)
     `prefix_of` map Fixtures.order_for ["0xB"; "0xA"; "0xD"; "0xE"]%string.
Proof.
  intros r. split; [reflexivity |].
  exact (proj1
           (@retrieve_dispatches_in_order Fixtures.toy_crypto
              Fixtures.toy_middleware Fixtures.no_learning
              (Fixtures.bob_retrieving 2 ["0xB"; "0xA"; "0xD"; "0xE"]%string)
              Fixtures.kit_one Fixtures.enrico [] [] 2
              (map Fixtures.order_for ["0xB"; "0xA"; "0xD"; "0xE"]%string)
              eq_refl)).
Defined.

(** X9 on the five nodes, with threshold 3 and the destinations [0xA],
    [0xB], [0xD], [0xE]: [0xB] times out, and the fragments of the three
    others are attached to a capsule that carried none. *)
Lemma retrieve_attaches_what_verifies_witness :
  let r :=
    @Bob.retrieve Fixtures.toy_crypto Fixtures.toy_middleware
      Fixtures.no_learning
      (Fixtures.bob_retrieving 3 ["0xA"; "0xB"; "0xD"; "0xE"]%string)
      Fixtures.kit_one Fixtures.enrico [] [] in
  @Bob.attached_in Fixtures.toy_crypto (Bob.calls r) = [[xaa]; [xaa]; [xaa]]
  /\ _attached_cfrags (capsule (Bob.kit r))
     = [] ++ @Bob.attached_in Fixtures.toy_crypto (Bob.calls r)
  /\ ciphertext (Bob.kit r) = [x42].
Proof.
  intros r. split; [reflexivity |].
  destruct (@retrieve_attaches_what_verifies Fixtures.toy_crypto
              Fixtures.toy_middleware Fixtures.no_learning
              (Fixtures.bob_retrieving 3 ["0xA"; "0xB"; "0xD"; "0xE"]%string)
              Fixtures.kit_one Fixtures.enrico [] [] 3
              (map Fixtures.order_for ["0xA"; "0xB"; "0xD"; "0xE"]%string)
              eq_refl)
    as (_ & Hciphertext & Hattached).
  split; [exact Hattached | exact Hciphertext].
Defined.

(** X10 on the five nodes, with threshold 2 and the destinations [0xA],
    [0xD]: the first [retrieve] returns the cleartext, the second asks no
    one and raises [NotEnoughUrsulas]. *)
Lemma retrieve_is_not_repeatable_witness :
  let first :=
    @Bob.retrieve Fixtures.toy_crypto Fixtures.toy_middleware
      Fixtures.no_learning
      (Fixtures.bob_retrieving 2 ["0xA"; "0xD"]%string)
      Fixtures.kit_one Fixtures.enrico [] [] in
  let second :=
    @Bob.retrieve Fixtures.toy_crypto Fixtures.toy_middleware
      Fixtures.no_learning (Bob.bob first)
      Fixtures.kit_one Fixtures.enrico [] [] in
  Bob.outcome first = Ok [[x42]]
  /\ Bob.calls second = []
  /\ Bob.outcome second = Raise (NotEnoughUrsulas "Unable to snag m cfrags.").
Proof.
  intros first second. split; [reflexivity |].
  destruct (@retrieve_is_not_repeatable Fixtures.toy_crypto
              Fixtures.toy_middleware Fixtures.no_learning
              (Fixtures.bob_retrieving 2 ["0xA"; "0xD"]%string)
              Fixtures.kit_one Fixtures.kit_one Fixtures.enrico
              Fixtures.enrico [] [] eq_refl eq_refl)
    as (Hcalls & _ & Hraised).
  split; [exact Hcalls | exact (Hraised eq_refl)].
Defined.

(** X11 on the Bob who knows [0xA] alone: [0xA] serves the map, and Bob
    holds it under the map id of the policy. *)
Lemma get_treasure_map_stores_witness :
  let run :=
    @Bob.get_treasure_map Fixtures.toy_crypto Fixtures.toy_middleware
      Fixtures.toy_models Fixtures.identity_shuffle Fixtures.toy_orienting
      Fixtures.bob_with_map false [] [] in
  run.1 = Ok Fixtures.map_one
  /\ Bob.treasure_maps run.2 !! Fixtures.toy_map_id = Some Fixtures.map_one
  /\ @Bob._pick_treasure_map run.2 None (Some Fixtures.toy_map_id)
     = Ok Fixtures.map_one.
Proof.
  intros run. split; [reflexivity |].
  destruct (@get_treasure_map_stores Fixtures.toy_crypto
              Fixtures.toy_middleware Fixtures.toy_models
              Fixtures.identity_shuffle Fixtures.toy_orienting
              Fixtures.bob_with_map run.2 false [] [] (Ok Fixtures.map_one)
              eq_refl)
    as (_ & Hstored & _ & Hpicked).
  split; [exact Hstored | exact Hpicked].
Defined.

(** X12 on the Bob who knows no one. *)
Lemma get_treasure_map_knowing_no_one_witness :
  @Bob.get_treasure_map Fixtures.toy_crypto Fixtures.toy_middleware
    Fixtures.toy_models Fixtures.identity_shuffle Fixtures.toy_orienting
    Fixtures.bob_alone false [] []
  = (Raise (NotEnoughTeachers ""), Fixtures.bob_alone)
  /\ @Bob.get_treasure_map Fixtures.toy_crypto Fixtures.toy_middleware
       Fixtures.toy_models Fixtures.identity_shuffle Fixtures.toy_orienting
       Fixtures.bob_alone true [] []
     = (Raise NowhereToBeFound, Fixtures.bob_alone).
Proof.
  split.
  - exact (@get_treasure_map_knowing_no_one Fixtures.toy_crypto
             Fixtures.toy_middleware Fixtures.toy_models
             Fixtures.identity_shuffle Fixtures.toy_orienting
             Fixtures.bob_alone false [] [] eq_refl).
  - exact (@get_treasure_map_knowing_no_one Fixtures.toy_crypto
             Fixtures.toy_middleware Fixtures.toy_models
             Fixtures.identity_shuffle Fixtures.toy_orienting
             Fixtures.bob_alone true [] [] eq_refl).
Defined.

(** X13 on the Bob who knows [0xA] alone and joins the policy whose map
    [0xA] serves. *)
Lemma join_policy_holds_the_map_witness :
  let run :=
    @Bob.join_policy Fixtures.toy_crypto Fixtures.toy_middleware
      Fixtures.toy_models Fixtures.identity_shuffle Fixtures.no_learning
      Fixtures.toy_orienting Fixtures.bob_with_map false [] [] false in
  run.1 = Ok tt
  /\ exists tm,
       Bob.treasure_maps run.2 !! Fixtures.toy_map_id = Some tm
       /\ @Bob._pick_treasure_map run.2 None (Some Fixtures.toy_map_id)
          = Ok tm.
Proof.
  intros run. split; [reflexivity |].
  exact (proj1
           (@join_policy_holds_the_map Fixtures.toy_crypto
              Fixtures.toy_middleware Fixtures.toy_models
              Fixtures.identity_shuffle Fixtures.no_learning
              Fixtures.toy_orienting Fixtures.bob_with_map run.2 false [] []
              false (Ok tt) eq_refl)
           eq_refl).
Defined.

(** X15 on the Alice who knows [0xA], [0xB] and [0xC] and revokes the
    policy over them: the failure map is returned, and she knows every
    address of the kit. *)
Lemma revoke_returns_only_knowing_all_witness :
  let r :=
    @Alice.revoke Fixtures.toy_middleware Fixtures.no_learning
      (Fixtures.alice_knowing 3) Fixtures.policy_two_of_three in
  Alice.outcome r = Ok {["0xB"%string := ([x0f], NotFound)]}
  /\ dom (revocation_kit Fixtures.policy_two_of_three)
     ⊆ dom (Alice.known_nodes (Alice.alice r)).
Proof.
  intros r. split; [reflexivity |].
  exact (@revoke_returns_only_knowing_all Fixtures.toy_middleware
           Fixtures.no_learning (Fixtures.alice_knowing 3)
           Fixtures.policy_two_of_three eq_refl).
Defined.

(** X16 on the same Alice: [0xB] does not find the arrangement, and its
    entry is the one of the failure map. *)
Lemma revoke_failure_map_witness :
  let r :=
    @Alice.revoke Fixtures.toy_middleware Fixtures.no_learning
      (Fixtures.alice_knowing 3) Fixtures.policy_two_of_three in
  let failed : gmap string (bytes * exn) :=
    {["0xB"%string := ([x0f], NotFound)]} in
  failed !! "0xB"%string
  = @Alice.revocation_failure Fixtures.toy_middleware (Alice.alice r)
      Fixtures.policy_two_of_three "0xB"
  /\ dom failed ⊆ dom (revocation_kit Fixtures.policy_two_of_three).
Proof.
  intros r failed.
  destruct (@revoke_failure_map Fixtures.toy_middleware Fixtures.no_learning
              (Fixtures.alice_knowing 3) Fixtures.policy_two_of_three
              failed eq_refl)
    as (_ & Hentries & Hdom).
  split; [|exact Hdom].
  rewrite (Hentries "0xB"%string).
  destruct (decide ("0xB"%string
                    ∈ dom (revocation_kit Fixtures.policy_two_of_three)))
    as [_|Hout]; [reflexivity |].
  exfalso. apply Hout. by vm_compute.
Defined.


(** X19 on the federated Alice who knows three nodes and grants a policy
    with n = 5: the policy is made over the three she knows. *)
Lemma grant_creates_policy_before_waiting_witness :
  exists ursulas,
    Permutation ursulas
      (map_to_list (Alice.known_nodes (Fixtures.alice_knowing 3))).*2
    /\ @new_policy Fixtures.toy_models
         (FederatedPolicy ursulas
            (mkPayload [] [x0d] (replicate 5 []) [] 3))
       = Ok (mkPolicy 5 (mkTreasureMap 3 []) ∅).
Proof.
  destruct (@grant_creates_policy_before_waiting Fixtures.toy_models
              Fixtures.toy_middleware Fixtures.identity_shuffle
              (Fixtures.alice_knowing 3) Fixtures.bob_with_map []
              (Some 3) (Some 5) (Some 1577836800) (Some (Amount 1)) None
              (mkPolicy 5 (mkTreasureMap 3 []) ∅) 5 (Some (Amount 1)) ∅
              eq_refl eq_refl)
    as (threshold & ursulas & public_key & kfrags & [= <-] & _ & [= <- <-]
        & Hperm & Hnew).
  by exists ursulas.
Defined.

(** X20 on two records read by the learner of version 2, the second of
    one byte: the batch fails, though the first record decodes. *)
Lemma batch_from_bytes_short_record_witness :
  @UrsulaCodec.batch_from_bytes Fixtures.toy_codec
    [x00; x01; x0a; x00] true false
  = (Raise BytestringSplittingError, []).
Proof.
  apply (@batch_from_bytes_short_record Fixtures.toy_codec
           [x00; x01; x0a; x00] true false [[x00; x01; x0a]; [x00]] eq_refl).
  apply List.Exists_cons_tl, List.Exists_cons_hd. simpl. lia.
Defined.


(** X24 on the seed that is up: the node at [0x0a] is returned, read at
    [seed.example], the name in the certificate. *)
Lemma from_seed_and_stake_info_returns_verified_witness :
  exists response_data w,
    @Seeding.node_information Z (Fixtures.toy_network 0) "seed.example" 9151
      "seed.example.pem" 0 = (Ok response_data, w)
    /\ @UrsulaCodec.from_bytes Fixtures.toy_codec response_data None true
       = Ok (Fixtures.ursula_at "0x0a").
Proof.
  destruct (@from_seed_and_stake_info_returns_verified Z Fixtures.toy_codec
              (Fixtures.toy_network 0) "localhost" true 0 None 0 0
              (Seeding.mkSeedNode (Fixtures.ursula_at "0x0a")
                 "seed.example.pem")
              eq_refl)
    as (host & port & expected & certificate & real_host & others & w1 & w2
        & response_data & w3 & w4 & [= <- <- <-] & [= <- <-] & [= <- <-]
        & [= <-] & Hinfo & Hdecode & _).
  by exists response_data, w3.
Defined.

(** X25 on the seed that is up, asked for a stake of 1. *)
Lemma minimum_stake_is_not_implemented_witness :
  @Seeding.from_seed_and_stake_info Z Fixtures.toy_codec
    (Fixtures.toy_network 0) "localhost" true 1 None 0
  = (Raise (Seeding.StakeNotImplementedError
              "Stake checking is not implemented yet."), 0)
  /\ is_ok (@Seeding.from_seed_and_stake_info Z Fixtures.toy_codec
              (Fixtures.toy_network 0) "localhost" true 1 None 0).1 = false.
Proof.
  split; [reflexivity |].
  exact (proj1
           (@minimum_stake_is_not_implemented Z Fixtures.toy_codec
              (Fixtures.toy_network 0) 1 ltac:(lia))
           "localhost"%string true None 0).
Defined.

(** X26 on the seed that comes up after 20 seconds: two attempts are
    given up on, each followed by a warning and a sleep, and the third
    returns the node; on the seed that comes up after 60 seconds the three
    attempts are given up on and the connection is refused after 30
    seconds. *)
Lemma from_teacher_uri_tries_three_times_witness :
  @Seeding.from_teacher_uri Z Fixtures.toy_codec (Fixtures.toy_network 20)
    4 true "localhost" 0 0
  = Some (Ok (Seeding.mkSeedNode (Fixtures.ursula_at "0x0a")
                "seed.example.pem"),
          20, Seeding.retries_logged 2)
  /\ @Seeding.from_teacher_uri Z Fixtures.toy_codec (Fixtures.toy_network 60)
       4 true "localhost" 0 0
     = Some (Raise (Seeding.ConnectionRefusedError
                      "Host localhost Refused Connection"),
             30, Seeding.retries_logged 3)
  /\ exists failed outcome w',
       @Seeding.from_teacher_uri Z Fixtures.toy_codec
         (Fixtures.toy_network 60) 4 true "localhost" 0 0
       = Some (outcome, w', Seeding.retries_logged failed)
       /\ (failed <= 3)%nat.
Proof.
  split; [reflexivity |]. split; [reflexivity |].
  destruct (@from_teacher_uri_tries_three_times Z Fixtures.toy_codec
              (Fixtures.toy_network 60) 4 true "localhost" "localhost" 9151
              None 0 0 ltac:(lia) eq_refl)
    as (failed & outcome & w' & Hrun & Hbound & _).
  by exists failed, outcome, w'.
Defined.

(** X23 on the teacher of version 2 and the learner of version 2: the
    node at [0x0a] is written on three bytes and read back. *)
Lemma from_bytes_reads_the_version_written_witness :
  @UrsulaEncoding.__bytes__ Fixtures.toy_encoder (Fixtures.ursula_at "0x0a")
  = Ok [x00; x02; x0a]
  /\ @UrsulaCodec.from_bytes Fixtures.toy_codec [x00; x02; x0a] None true
     = Ok (Fixtures.ursula_at "0x0a")
  /\ @UrsulaCodec.from_bytes Fixtures.toy_codec [x00; x02; x0a] None true
     = @UrsulaCodec.from_bytes Fixtures.toy_codec [x0a] (Some 2) true.
Proof.
  split; [reflexivity |]. split; [reflexivity |].
  destruct (proj1
              (@from_bytes_reads_the_version_written Fixtures.toy_codec
                 Fixtures.toy_encoder (Fixtures.ursula_at "0x0a") true)
              ltac:(simpl; lia))
    as (hi & lo & Hbytes & _ & Hread & _).
  cbv in Hbytes. injection Hbytes as <- <-.
  exact Hread.
Defined.

(** X28 on the policy of the fixtures: the Bob who stores the map and
    the Bob who retrieves have the same stamp, and so the same digest. *)
Lemma map_id_names_one_digest_witness :
  @keccak_digest Fixtures.toy_crypto
    ([] ++ (@Bob.construct_hrac_and_map_id Fixtures.toy_crypto
              Fixtures.bob_with_map [] []).1)
  = @keccak_digest Fixtures.toy_crypto
      ([] ++ (@Bob.construct_hrac_and_map_id Fixtures.toy_crypto
                Fixtures.bob_alone [] []).1).
Proof.
  exact (@map_id_names_one_digest Fixtures.toy_crypto Fixtures.bob_with_map
           Fixtures.bob_alone [] [] [] [] eq_refl).
Defined.
